(** * parameters_checker: AUTOSAR configuration parameters against requirements

    A shallow embedding of [parameters_checker.py] and the properties of its
    extraction-and-reconciliation engine.

    Conventions of the embedding.
    - A Python [str] is a [string] of 8-bit characters.  [upper], [strip] and
      the regular expression class [\w] are the ASCII ones; characters above
      127 are left alone by [upper] and are not word characters.  Python
      follows Unicode there, so a statement that names the result of one of
      the three is made for ASCII text ([ascii_only]), on which the two
      agree.
    - A configuration file is the list of its lines, as iterating over the
      file opened with the encoding [utf-8] yields them: the files are
      taken to open and to decode.
    - A Python [dict] with string keys is a [gmap string _]; a Python [set] of
      strings is a [gset string].  The buckets and tables are compared as maps,
      so the insertion order a Python [dict] remembers is not tracked: where
      the source iterates a [dict] the model folds over the map.  No statement
      below depends on the order of that iteration, which decides the order
      of the lines [compute_params] prints and, when several rounds would
      raise, which of them does.
    - An exception is a value [Raise e] of [result]; [print] appends a line to
      an explicit console. *)

From Stdlib Require Import Ascii String.
From stdpp Require Import gmap strings list fin_maps fin_sets pretty.

Local Open Scope string_scope.
Local Open Scope list_scope.
Local Open Scope stdpp_scope.

Set Warnings "-clear-no-such-hyp".

(** ** Exceptions and the console *)

Inductive exn : Set :=
| StopIteration
| IndexError
| TypeError
| AttributeError.

Inductive result (A : Type) : Type :=
| Ok (a : A)
| Raise (e : exn).
Arguments Ok {A} a.
Arguments Raise {A} e.

#[global] Instance result_ret : MRet result := λ A a, Ok a.

#[global] Instance result_bind : MBind result := λ A B k r,
  match r with
  | Ok a => k a
  | Raise e => Raise e
  end.

(** What has been printed so far, oldest line first. *)
Definition console : Type := list string.

Definition print (msg : string) (out : console) : console := out ++ [msg].

(** ** Python string operations *)

Module Py.

Definition newline : ascii := Ascii.ascii_of_nat 10.
Definition space : ascii := " "%char.
Definition slash : ascii := "/"%char.

Definition code (c : ascii) : nat := Ascii.nat_of_ascii c.

Definition is_lower (c : ascii) : bool :=
  (97 <=? code c)%nat && (code c <=? 122)%nat.
Definition is_upper (c : ascii) : bool :=
  (65 <=? code c)%nat && (code c <=? 90)%nat.
Definition is_digit (c : ascii) : bool :=
  (48 <=? code c)%nat && (code c <=? 57)%nat.

(** The class [\w]: letters, digits and the underscore. *)
Definition is_word (c : ascii) : bool :=
  is_lower c || is_upper c || is_digit c || (code c =? 95)%nat.

(** [str.isspace] on one character: tab, line feed, vertical tab, form
    feed, carriage return, the four separators 28-31 and the space. *)
Definition is_space (c : ascii) : bool :=
  ((9 <=? code c)%nat && (code c <=? 13)%nat)
  || ((28 <=? code c)%nat && (code c <=? 32)%nat).

Definition upper_char (c : ascii) : ascii :=
  if is_lower c then Ascii.ascii_of_nat (code c - 32) else c.

(** [s.upper()] *)
Fixpoint upper (s : string) : string :=
  match s with
  | EmptyString => EmptyString
  | String c s' => String (upper_char c) (upper s')
  end.

(** [s.replace(a, b)] for one-character [a] and [b]. *)
Fixpoint replace (a b : ascii) (s : string) : string :=
  match s with
  | EmptyString => EmptyString
  | String c s' =>
      String (if Ascii.eqb c a then b else c) (replace a b s')
  end.

(** [s.split(sep)] for a one-character [sep]: the list is never empty, and
    two adjacent separators enclose an empty field. *)
Fixpoint split (sep : ascii) (s : string) : list string :=
  match s with
  | EmptyString => [EmptyString]
  | String c s' =>
      if Ascii.eqb c sep then EmptyString :: split sep s'
      else match split sep s' with
           | [] => [String c EmptyString]
           | f :: fs => String c f :: fs
           end
  end.

(** [l[0]] and [l[-1]] on a list of strings. *)
Definition first (l : list string) : result string :=
  match l with
  | [] => Raise IndexError
  | x :: _ => Ok x
  end.

Fixpoint last (l : list string) : result string :=
  match l with
  | [] => Raise IndexError
  | [x] => Ok x
  | _ :: l' => last l'
  end.

(** [l[i]] *)
Definition index (l : list string) (i : nat) : result string :=
  match l !! i with
  | Some x => Ok x
  | None => Raise IndexError
  end.

Fixpoint lstrip (s : string) : string :=
  match s with
  | EmptyString => EmptyString
  | String c s' => if is_space c then lstrip s' else s
  end.

Fixpoint rstrip (s : string) : string :=
  match s with
  | EmptyString => EmptyString
  | String c s' =>
      match rstrip s' with
      | EmptyString => if is_space c then EmptyString else String c EmptyString
      | r => String c r
      end
  end.

(** [s.strip()] *)
Definition strip (s : string) : string := rstrip (lstrip s).

(** [s.startswith(p)], returning what follows the prefix. *)
Fixpoint strip_prefix (p s : string) : option string :=
  match p with
  | EmptyString => Some s
  | String a p' =>
      match s with
      | EmptyString => None
      | String b s' => if Ascii.eqb a b then strip_prefix p' s' else None
      end
  end.

Definition startswith (p s : string) : bool :=
  match strip_prefix p s with Some _ => true | None => false end.

(** [sub in s] *)
Fixpoint contains (sub s : string) : bool :=
  startswith sub s ||
  match s with
  | EmptyString => false
  | String _ s' => contains sub s'
  end.

(** [s.endswith(suffix)] *)
Fixpoint endswith (suffix s : string) : bool :=
  String.eqb suffix s ||
  match s with
  | EmptyString => false
  | String _ s' => endswith suffix s'
  end.

(** [os.path.join(a, b)] on a POSIX system. *)
Definition path_join (a b : string) : string :=
  if startswith "/" b then b
  else if String.eqb a "" || endswith "/" a then a +:+ b
  else a +:+ "/" +:+ b.

End Py.

(** ** The regular expressions of the source

    Python's [re] is a backtracking matcher.  A pattern is embedded as a
    function from the rest of the input to the first successful match in
    backtracking order; [dot_star k] is the greedy [.*] followed by the
    pattern [k]. *)

Module Re.

(** [.] matches any character but the line feed. *)
Definition dot (c : ascii) : bool := negb (Ascii.eqb c Py.newline).

(** A greedy [.*] in a group, followed by [k]: take as many characters
    as possible, then give back one at a time until [k] matches what is
    left.  Returns the text taken by [.*]
    and the result of [k]. *)
Fixpoint dot_star {B} (k : string → option B) (s : string)
  : option (string * B) :=
  match s with
  | EmptyString => pair EmptyString <$> k EmptyString
  | String c s' =>
      if dot c then
        match dot_star k s' with
        | Some (g, b) => Some (String c g, b)
        | None => pair EmptyString <$> k s
        end
      else pair EmptyString <$> k s
  end.

(** [pattern.search(s)]: the match at the leftmost position that has one. *)
Fixpoint search {B} (p : string → option B) (s : string) : option B :=
  match p s with
  | Some b => Some b
  | None =>
      match s with
      | EmptyString => None
      | String _ s' => search p s'
      end
  end.

(** [[\w]] *)
Definition word_char (s : string) : option ascii :=
  match s with
  | String c _ => if Py.is_word c then Some c else None
  | EmptyString => None
  end.

(** [.] *)
Definition any_char (s : string) : option string :=
  match s with
  | String c s' => if dot c then Some s' else None
  | EmptyString => None
  end.

End Re.

(** ** Configuration scanner *)

(** A double quote and a line feed, for the messages that contain them. *)
Definition dquote : string := String (Ascii.ascii_of_nat 34) EmptyString.
Definition nl : string := String Py.newline EmptyString.

(** One directory of the tree as [os.walk] yields it, with the lines of each
    file as iterating over the open file yields them (every line but possibly
    the last ends with a line feed). *)
Record file_entry : Type := FileEntry {
  file_name : string;
  file_lines : list string
}.

Definition walk : Type := list (string * list file_entry).

(** [find_arxml_files]: the paths of the [.arxml] files in walk order, each
    with the content [open] gives. *)
Definition find_arxml_files (search_path : walk)
  : list (string * list string) :=
  '(subdir, files) ← search_path;
  file ← files;
  if Py.endswith ".arxml" (file_name file)
  then [(Py.path_join subdir (file_name file), file_lines file)]
  else [].

(** [param_pattern.search(line)], group 1.  The pattern is [>/], a group
    with a greedy [.*], and [</]. *)
Definition param_pattern (line : string) : option string :=
  Re.search
    (λ s, r ← Py.strip_prefix ">/" s;
          fst <$> Re.dot_star (Py.strip_prefix "</") r)
    line.

(** [value_pattern.match(s)], group 1.  The pattern is [<VALUE>], a group
    with a greedy [.*], and [</VALUE>]; [match] anchors it at the start. *)
Definition value_pattern (s : string) : option string :=
  r ← Py.strip_prefix "<VALUE>" s;
  fst <$> Re.dot_star (Py.strip_prefix "</VALUE>") r.

Definition discarding_message (param_name line arxml_file : string) : string :=
  "Discarding param " +:+ param_name +:+ " found at line  " +:+ nl +:+ line
  +:+ ".   " +:+ nl +:+ "Could not find a value on next line in file "
  +:+ arxml_file.

(** The occurrence table: parameter name to the list of
    [[file, line, value]] lists. *)
Abbreviation occurrences := (gmap string (list (list string))).

(** [param_data[param_name].append(data_param)], or a fresh entry. *)
Definition add_occurrence (param_name : string) (data_param : list string)
    (param_data : occurrences) : occurrences :=
  match param_data !! param_name with
  | Some found => <[param_name := found ++ [data_param]]> param_data
  | None => <[param_name := [data_param]]> param_data
  end.

(** The loop [for line in xml_file] of [search_for_param].  [xml_file] is
    what the file iterator has left; [next(xml_file)] takes one more line
    from it, and raises [StopIteration] when there is none. *)
Fixpoint scan_lines (parameters : gmap string string) (arxml_file : string)
    (xml_file : list string) (param_data : occurrences) (out : console)
  : result (occurrences * console) :=
  match xml_file with
  | [] => Ok (param_data, out)
  | line :: xml_file =>
      if Py.contains "DEFINITION-REF" line then
        match param_pattern line with
        | None => scan_lines parameters arxml_file xml_file param_data out
        | Some group1 =>
            match Py.last (Py.split Py.slash group1) with
            | Raise e => Raise e
            | Ok param_name =>
                if decide (is_Some (parameters !! param_name)) then
                  let data_param := [arxml_file; Py.strip line] in
                  match xml_file with
                  | [] => Raise StopIteration
                  | next_line :: xml_file =>
                      match value_pattern (Py.strip next_line) with
                      | Some value =>
                          let data_param := data_param ++ [value] in
                          scan_lines parameters arxml_file xml_file
                            (add_occurrence param_name data_param param_data)
                            out
                      | None =>
                          scan_lines parameters arxml_file xml_file param_data
                            (print (discarding_message param_name line
                                      arxml_file) out)
                      end
                  end
                else scan_lines parameters arxml_file xml_file param_data out
            end
        end
      else scan_lines parameters arxml_file xml_file param_data out
  end.

(** The loop over the files. *)
Fixpoint scan_files (parameters : gmap string string)
    (files : list (string * list string)) (param_data : occurrences)
    (out : console) : result (occurrences * console) :=
  match files with
  | [] => Ok (param_data, out)
  | (arxml_file, xml_file) :: files =>
      '(param_data, out) ←
        scan_lines parameters arxml_file xml_file param_data
          (print ("analysing file " +:+ arxml_file +:+ " ...") out);
      scan_files parameters files param_data out
  end.

Definition search_for_param (parameters : gmap string string)
    (search_path : walk) (out : console) : result (occurrences * console) :=
  scan_files parameters (find_arxml_files search_path) ∅ out.

(** ** Reconciliation engine *)

(** The dictionary with the keys [name], [expected_value], [actual_value]
    and [found_in]. *)
Record container : Type := Container {
  name : string;
  expected_value : string;
  actual_value : string;
  found_in : string
}.

Definition get_container_dict
    (param_name param_expected_value actual_value_field found_field : string)
  : container :=
  {| name := param_name;
     expected_value := param_expected_value;
     actual_value := actual_value_field;
     found_in := found_field |}.

Definition found_line (file line : string) : string :=
  "File: " +:+ file +:+ " at line: " +:+ line +:+ "   <br />".

Definition value_line (file val : string) : string :=
  "Value in " +:+ file +:+ ": <span style=" +:+ dquote +:+ "color:red"
  +:+ dquote +:+ ">" +:+ val +:+ "</span>   <br />".

Definition could_not_decide : string :=
  "Could not decide the value. Multiple different values exists. "
  +:+ "Check above and correct".

Definition computed_line (processed_computed_value : string) : string :=
  "Computed actual value: <span style=" +:+ dquote +:+ "color:green"
  +:+ dquote +:+ ">" +:+ processed_computed_value +:+ "</span>".

(** The loop [for result in param_result] of [compute_param]. *)
Fixpoint collect (param_result : list (list string))
    (found_field actual_value_field : string) (value_decider : gset string)
  : result (string * string * gset string) :=
  match param_result with
  | [] => Ok (found_field, actual_value_field, value_decider)
  | result :: param_result =>
      file ← Py.index result 0;
      line ← Py.index result 1;
      actual_value ← Py.index result 2;
      collect param_result
        (found_field +:+ found_line file line)
        (actual_value_field +:+ value_line file actual_value)
        ({[actual_value]} ∪ value_decider)
  end.

(** [s.upper().split(sep)[0]] with a single space for [sep]. *)
Definition processed (s : string) : result string :=
  Py.first (Py.split Py.space (Py.upper s)).

Abbreviation bucket := (gmap string container).

(** The three dictionaries returned are [values_as_expected],
    [cannot_decide_value] and [not_equal_expected_actual_values], in this
    order.  [next(iter(value_decider))] is only reached with at most one
    element in the set: it is that element, or [StopIteration]. *)
Definition compute_param (param_name param_expected_value : string)
    (param_result : list (list string)) : result (bucket * bucket * bucket) :=
  '(found_field, actual_value_field, value_decider) ←
    collect param_result "" "" ∅;
  if decide (1 < size value_decider) then
    let actual_value_field := actual_value_field +:+ could_not_decide in
    Ok (∅,
        {[param_name := get_container_dict param_name param_expected_value
                          actual_value_field found_field]},
        ∅)
  else
    match elements value_decider with
    | [] => Raise StopIteration
    | computed_value :: _ =>
        processed_computed_value ← processed computed_value;
        processed_expected_value ← processed param_expected_value;
        let actual_value_field :=
          actual_value_field +:+ computed_line processed_computed_value in
        if decide (processed_computed_value = processed_expected_value) then
          Ok ({[param_name := get_container_dict param_name
                                param_expected_value actual_value_field
                                found_field]}, ∅, ∅)
        else
          Ok (∅, ∅,
              {[param_name := get_container_dict param_name
                                param_expected_value actual_value_field
                                found_field]})
    end.

(** The four dictionaries [compute_params] returns. *)
Record buckets : Type := Buckets {
  values_as_expected : bucket;
  nothing_found_container : bucket;
  cannot_decide_value : bucket;
  not_equal_expected_actual_values : bucket
}.

Definition no_buckets : buckets := Buckets ∅ ∅ ∅ ∅.

Definition not_found (param_name param_expected_value : string) : container :=
  {| name := param_name;
     expected_value := param_expected_value;
     actual_value := "not found";
     found_in := "not found" |}.

(** One round of the loop of [compute_params].  [{**a, **b}] is [b ∪ a]:
    the union of maps keeps the left value of a shared key. *)
Definition compute_params_round (param_search_result : occurrences)
    (param_name param_expected_value : string)
    (state : result (buckets * console)) : result (buckets * console) :=
  '(b, out) ← state;
  match param_search_result !! param_name with
  | None =>
      Ok ({| values_as_expected := values_as_expected b;
             nothing_found_container :=
               <[param_name := not_found param_name param_expected_value]>
                 (nothing_found_container b);
             cannot_decide_value := cannot_decide_value b;
             not_equal_expected_actual_values :=
               not_equal_expected_actual_values b |},
          print ("No results found for " +:+ param_name) out)
  | Some param_result =>
      '(r0, r1, r2) ←
        compute_param param_name param_expected_value param_result;
      Ok ({| values_as_expected := r0 ∪ values_as_expected b;
             nothing_found_container := nothing_found_container b;
             cannot_decide_value := r1 ∪ cannot_decide_value b;
             not_equal_expected_actual_values :=
               r2 ∪ not_equal_expected_actual_values b |},
          out)
  end.

Definition compute_params (parameters : gmap string string)
    (param_search_result : occurrences) (out : console)
  : result (buckets * console) :=
  map_fold (compute_params_round param_search_result)
    (Ok (no_buckets, out)) parameters.

(** ** Requirement parser and extractor *)

(** [pattern.match(line)], groups 1 and 2.  The pattern is a group with a
    greedy [.*], the keyword [shall be set to], one [.], and a group with a
    greedy [.*] and one [\w]. *)
Definition get_param (line : string) : option (string * string) :=
  Re.dot_star
    (λ r, r ← Py.strip_prefix "shall be set to" r;
          r ← Re.any_char r;
          '(g, c) ← Re.dot_star Re.word_char r;
          Some (g +:+ String c EmptyString))
    line.

(** The value of a spreadsheet cell: empty, text or a number. *)
Inductive cell_value : Type :=
| CNone
| CStr (s : string)
| CNum (n : Z).

(** [Requirement in object_type], on a cell value. *)
Definition requirement_in (object_type : cell_value) : result bool :=
  match object_type with
  | CStr s => Ok (Py.contains "Requirement" s)
  | CNone | CNum _ => Raise TypeError
  end.

(** [text.replace] of every line feed by a space, on a cell value. *)
Definition replace_newlines (text : cell_value) : result string :=
  match text with
  | CStr s => Ok (Py.replace Py.newline Py.space s)
  | CNone | CNum _ => Raise AttributeError
  end.

Definition multiple_times_message (param_name : string) : string :=
  "Parameter " +:+ param_name
  +:+ " found multiple times. Considering only the first occurence.".

(** [fill_params_dict] returns its result, and the dictionary [parameters]
    as it leaves it. *)
Definition fill_params_dict (object_type text : cell_value)
    (parameters : gmap string string) (out : console)
  : result (option string * gmap string string * console) :=
  is_requirement ← requirement_in object_type;
  if is_requirement : bool then
    line ← replace_newlines text;
    match get_param line with
    | Some res =>
        let param_name := Py.strip (fst res) in
        let param_value := snd res in
        if decide (is_Some (parameters !! param_name)) then
          Ok (None, parameters, print (multiple_times_message param_name) out)
        else
          Ok (Some param_name, <[param_name := param_value]> parameters, out)
    | None =>
        match text with
        | CStr s => Ok (None, parameters, print ("Could not match " +:+ s) out)
        | CNone | CNum _ => Raise AttributeError
        end
    end
  else Ok (None, parameters, out).

(** A row of the sheet, columns 2 to 8: the object type, the text and the
    five cells after them. *)
Record row : Type := Row {
  object_type_cell : cell_value;
  text_cell : cell_value;
  other_cells : list cell_value
}.

(** The loop over the rows of [extract_params_from_excel]; a name is true
    in [if param_name] when it is not the empty string. *)
Fixpoint extract_rows (rows : list row) (parameters : gmap string string)
    (parameters_cells : gmap string row) (out : console)
  : result (gmap string string * gmap string row * console) :=
  match rows with
  | [] => Ok (parameters, parameters_cells, out)
  | cell :: rows =>
      '(param_name, parameters, out) ←
        fill_params_dict (object_type_cell cell) (text_cell cell)
          parameters out;
      let parameters_cells :=
        match param_name with
        | Some n =>
            if decide (n = "") then parameters_cells
            else <[n := cell]> parameters_cells
        | None => parameters_cells
        end in
      extract_rows rows parameters parameters_cells out
  end.

Definition extract_params_from_excel (active_sheet : list row) (out : console)
  : result (gmap string string * gmap string row * console) :=
  '(parameters, parameters_cells, out) ← extract_rows active_sheet ∅ ∅ out;
  Ok (parameters, parameters_cells,
      print ("Found " +:+ pretty (size parameters) +:+ " parameters") out).

(** ** Report *)

(** What [generate_report] raises on its arguments: [KeyError] when
    [excel_cells] has no row under a name, [IndexError] (tuple index out of
    range) when the row has no cell at the index. *)
Inductive report_exn : Set :=
| KeyError (key : string)
| TupleIndexError.

Definition report_table_header : string :=
  "NAME | EXPECTED VALUE | ACTUAL VALUE | FOUND IN |" +:+ nl
  +:+ "--- | --- | --- | ---".

(** [report_file.write(text)], on the text written so far. *)
Definition write (report_file text : string) : string :=
  report_file +:+ text.

Definition write_report_header (report_file : string) : string :=
  write report_file (report_table_header +:+ nl).

Definition write_line (report_file : string) (line_dict : container)
  : string :=
  write report_file
    (name line_dict +:+ " | " +:+ expected_value line_dict +:+ " | "
     +:+ actual_value line_dict +:+ " | " +:+ found_in line_dict +:+ nl).

(** [cell[i].value = v] on a row.  The cells of a row are the object type,
    the text and the others, in this order; there is no result when the row
    has no cell [i]. *)
Definition set_value (cell : row) (i : nat) (v : string) : option row :=
  match i with
  | 0 => Some {| object_type_cell := CStr v;
                 text_cell := text_cell cell;
                 other_cells := other_cells cell |}
  | 1 => Some {| object_type_cell := object_type_cell cell;
                 text_cell := CStr v;
                 other_cells := other_cells cell |}
  | S (S j) =>
      if decide (j < List.length (other_cells cell))%nat then
        Some {| object_type_cell := object_type_cell cell;
                text_cell := text_cell cell;
                other_cells := <[j := CStr v]> (other_cells cell) |}
      else None
  end.

(** The state of [generate_report]: the text written to [report.md] and the
    rows of the workbook, under the names of [excel_cells].  A row is held
    under one name, as [extract_params_from_excel] files it. *)
Abbreviation report_state := (string * gmap string row)%type.

(** The body of each of the four loops of [generate_report], with the two
    texts it writes to the row. *)
Definition mark (status comment : string) (param_name : string)
    (container_dict : container) (state : report_exn + report_state)
  : report_exn + report_state :=
  match state with
  | inl e => inl e
  | inr (report_file, excel_cells) =>
      let report_file := write_line report_file container_dict in
      match excel_cells !! param_name with
      | None => inl (KeyError param_name)
      | Some cell =>
          match set_value cell 3 status with
          | None => inl TupleIndexError
          | Some cell =>
              match set_value cell 6 comment with
              | None => inl TupleIndexError
              | Some cell =>
                  inr (report_file, <[param_name := cell]> excel_cells)
              end
          end
      end
  end.

(** One table of the report: the title, the header, and the loop over a
    dictionary of [computed_dicts]. *)
Definition report_section (title status comment : string)
    (computed_dict : bucket) (state : report_exn + report_state)
  : report_exn + report_state :=
  match state with
  | inl e => inl e
  | inr (report_file, excel_cells) =>
      let report_file := write_report_header (write report_file title) in
      map_fold (mark status comment) (inr (report_file, excel_cells))
        computed_dict
  end.

(** [generate_report] returns the text of [report.md] and the rows as
    [excel_file.save] writes them; nothing is saved when it raises.  The
    iteration of each dictionary decides the order of the lines of its
    table and, when several names have no row, the key of [KeyError]. *)
Definition generate_report (excel_cells : gmap string row)
    (computed_dicts : buckets) : report_exn + report_state :=
  let state := inr ("", excel_cells) in
  let state :=
    report_section ("# PARAMETERS WITH VALUES AS EXPECTED" +:+ nl)
      "Agreed" "Found in config and value is matching."
      (values_as_expected computed_dicts) state in
  let state :=
    report_section ("# PARAMETERS THAT WERE NOT FOUND IN CONFIG" +:+ nl)
      "Follow-up" "Not found in config"
      (nothing_found_container computed_dicts) state in
  let state :=
    report_section
      (nl +:+ "# PARAMETERS WITH VALUES THAT COULD NOT BE COMPUTED" +:+ nl)
      "Follow-up" "Multiple different values in config"
      (cannot_decide_value computed_dicts) state in
  report_section (nl +:+ "# PARAMETERS WITH WRONG VALUE" +:+ nl)
    "Follow-up" "Values available in config but don't match"
    (not_equal_expected_actual_values computed_dicts) state.

(** * Notions used in the statements *)

(** The text is ASCII: every character has a code below 128.  On such text
    [Py.upper], [Py.strip] and [Py.is_word] are [str.upper], [str.strip]
    and the class [\w] of Python. *)
Fixpoint ascii_only (s : string) : bool :=
  match s with
  | EmptyString => true
  | String c s' => (Py.code c <? 128)%nat && ascii_only s'
  end.

(** The text of [s] before the first [sep], all of [s] when there is none. *)
Fixpoint before (sep : ascii) (s : string) : string :=
  match s with
  | EmptyString => EmptyString
  | String c s' =>
      if Ascii.eqb c sep then EmptyString else String c (before sep s')
  end.

(** An occurrence with the three components [compute_param] reads. *)
Definition complete (o : list string) : Prop := (3 ≤ List.length o)%nat.

Definition file_of (o : list string) : string := default "" (o !! 0).
Definition line_of (o : list string) : string := default "" (o !! 1).
Definition value_of (o : list string) : string := default "" (o !! 2).

(** The two display strings the loop builds, and the values it meets. *)
Definition found_fields (l : list (list string)) : string :=
  foldr (λ o acc, found_line (file_of o) (line_of o) +:+ acc) "" l.
Definition value_fields (l : list (list string)) : string :=
  foldr (λ o acc, value_line (file_of o) (value_of o) +:+ acc) "" l.
Definition values (l : list (list string)) : list string := value_of <$> l.

#[global] Instance complete_dec o : Decision (complete o).
Proof. unfold complete. apply _. Defined.

(** The set of distinct values of a list of occurrences. *)
Definition distinct_values (l : list (list string)) : gset string :=
  list_to_set (values l).

(** [processed] as a total function: the upper-cased string cut before its
    first space. *)
Definition normal (s : string) : string := before Py.space (Py.upper s).

(** The three dictionaries of [compute_param] hold one entry between them,
    under the name of the parameter. *)
Inductive placed (n ev : string)
  : bucket * bucket * bucket → Prop :=
| placed_agreed c :
    name c = n → expected_value c = ev → placed n ev ({[n := c]}, ∅, ∅)
| placed_ambiguous c :
    name c = n → expected_value c = ev → placed n ev (∅, {[n := c]}, ∅)
| placed_mismatched c :
    name c = n → expected_value c = ev → placed n ev (∅, ∅, {[n := c]}).

(** The four classification outcomes, and the dictionary of each. *)
Inductive verdict : Set := AGREED | NOT_FOUND | AMBIGUOUS | MISMATCHED.

#[global] Instance verdict_eq_dec : EqDecision verdict.
Proof. solve_decision. Defined.

Definition bucket_of (v : verdict) (b : buckets) : bucket :=
  match v with
  | AGREED => values_as_expected b
  | NOT_FOUND => nothing_found_container b
  | AMBIGUOUS => cannot_decide_value b
  | MISMATCHED => not_equal_expected_actual_values b
  end.

(** The entry one round files under [v] for the parameter [n], if any. *)
Definition entry (param_search_result : occurrences) (v : verdict)
    (n ev : string) : option container :=
  match param_search_result !! n with
  | None => if decide (v = NOT_FOUND) then Some (not_found n ev) else None
  | Some l =>
      match compute_param n ev l with
      | Ok (r0, r1, r2) =>
          match v with
          | AGREED => r0 !! n
          | NOT_FOUND => None
          | AMBIGUOUS => r1 !! n
          | MISMATCHED => r2 !! n
          end
      | Raise _ => None
      end
  end.

(** The rounds that return: the parameter is absent from the occurrence
    table, or its occurrences are complete and there is at least one. *)
Definition sound_for (param_search_result : occurrences) (n : string) : Prop :=
  ∀ l, param_search_result !! n = Some l → Forall complete l ∧ l ≠ [].

(** The invariant of the loop of [compute_params], over the parameters
    [m] visited so far. *)
Definition rounds_done (T : occurrences) (m : gmap string string)
    (state : result (buckets * console)) : Prop :=
  match state with
  | Ok (b, _) =>
      (∀ n, is_Some (m !! n) → sound_for T n)
      ∧ ∀ v n, bucket_of v b !! n = m !! n ≫= entry T v n
  | Raise e =>
      ∃ n ev l, m !! n = Some ev ∧ T !! n = Some l
                ∧ compute_param n ev l = Raise e
  end.

(** The four dictionaries split the set [names]: no name is in two of them,
    and every name of [names], and no other, is in one. *)
Definition partition (b : buckets) (names : gset string) : Prop :=
  (∀ v w, v ≠ w → dom (bucket_of v b) ## dom (bucket_of w b))
  ∧ dom (values_as_expected b) ∪ dom (nothing_found_container b)
    ∪ dom (cannot_decide_value b) ∪ dom (not_equal_expected_actual_values b)
    = names.



(** Two containers for the parameter [n] that differ at most in the order in
    which their display strings list the occurrences. *)
Definition same_up_to_order (T T' : occurrences) (n : string)
    (c c' : container) : Prop :=
  name c' = name c ∧ expected_value c' = expected_value c
  ∧ match T !! n, T' !! n with
    | Some l, Some l' =>
        found_in c = found_fields l ∧ found_in c' = found_fields l'
        ∧ ∃ suffix, actual_value c = value_fields l +:+ suffix
                    ∧ actual_value c' = value_fields l' +:+ suffix
    | _, _ => c' = c
    end.

(** The same names in each dictionary, with entries equal up to the order
    of the occurrences. *)
Definition same_buckets (T T' : occurrences) (b b' : buckets) : Prop :=
  ∀ v n, option_Forall2 (same_up_to_order T T' n)
           (bucket_of v b !! n) (bucket_of v b' !! n).

Definition same_outcome (T T' : occurrences)
    (r r' : result (buckets * console)) : Prop :=
  match r, r' with
  | Ok (b, _), Ok (b', _) => same_buckets T T' b b'
  | Raise e, Raise e' => e = e'
  | _, _ => False
  end.

(** The parameter a line defines, when the line is a definition the scanner
    recognizes: it holds the marker, the pattern matches, and the last
    segment of the path is an expected parameter. *)
Definition recognized (parameters : gmap string string) (line : string)
  : option string :=
  if Py.contains "DEFINITION-REF" line then
    match param_pattern line with
    | None => None
    | Some group1 =>
        match Py.last (Py.split Py.slash group1) with
        | Ok param_name =>
            if decide (is_Some (parameters !! param_name))
            then Some param_name else None
        | Raise _ => None
        end
    end
  else None.

(** The shape of the occurrence table: its keys are expected parameters,
    and each maps to a non-empty list of three-component lists. *)
Definition triple (o : list string) : Prop := ∃ f ln v, o = [f; ln; v].

Definition scanned (P : gmap string string) (T : occurrences) : Prop :=
  ∀ n l, T !! n = Some l → is_Some (P !! n) ∧ l ≠ [] ∧ Forall triple l.

(** A small configuration tree: one file with a definition and its value,
    one file that is not a configuration file. *)
Definition definition_line : string :=
  "<DEFINITION-REF DEST=x>/A/B/Param</DEFINITION-REF>" +:+ nl.

Definition sample_tree : walk :=
  [("cfg", [FileEntry "a.arxml"
              [definition_line; "  <VALUE>10 MS</VALUE>" +:+ nl];
            FileEntry "notes.txt" [definition_line]])].

(** The row, read on its own, registers the parameter [n] with the value
    [v]. *)
Definition defines (r : row) (n v : string) : Prop :=
  fill_params_dict (object_type_cell r) (text_cell r) ∅ []
  = Ok (Some n, {[n := v]}, []).

(** The row can be read: [fill_params_dict] returns on it. *)
Definition readable (r : row) : Prop :=
  ∃ x, fill_params_dict (object_type_cell r) (text_cell r) ∅ [] = Ok x.

(** The occurrences recorded for a name, none when the name is not a key. *)
Definition occs (T : occurrences) (n : string) : list (list string) :=
  default [] (T !! n).

(** What the scan of one file, on its own, records for a name. *)
Definition file_occs (P : gmap string string) (file : string * list string)
    (n : string) : list (list string) :=
  match scan_lines P (fst file) (snd file) ∅ [] with
  | Ok (T, _) => occs T n
  | Raise _ => []
  end.

(** The scan of the file, on its own, returns. *)
Definition file_ok (P : gmap string string) (file : string * list string)
  : Prop :=
  ∃ x, scan_lines P (fst file) (snd file) ∅ [] = Ok x.

(** Two runs of [compute_params] on the occurrence tables [T] and [T'] that
    agree on the classification: both raise the same exception, or both
    return, with the same names in each of the four dictionaries and, under
    each name, entries that differ at most in the order in which
    [actual_value] and [found_in] list the occurrences. *)
Definition same_classification (T T' : occurrences)
    (r r' : result (buckets * console)) : Prop :=
  match r, r' with
  | Ok (b, _), Ok (b', _) =>
      dom (values_as_expected b) = dom (values_as_expected b')
      ∧ dom (nothing_found_container b) = dom (nothing_found_container b')
      ∧ dom (cannot_decide_value b) = dom (cannot_decide_value b')
      ∧ dom (not_equal_expected_actual_values b)
        = dom (not_equal_expected_actual_values b')
      ∧ ∀ v n, option_Forall2 (same_up_to_order T T' n)
                 (bucket_of v b !! n) (bucket_of v b' !! n)
  | Raise e, Raise e' => e = e'
  | _, _ => False
  end.

(** No line feed in the string: [.] matches each of its characters. *)
Fixpoint dots (s : string) : bool :=
  match s with
  | EmptyString => true
  | String c s' => Re.dot c && dots s'
  end.


Definition keyword : string := "shall be set to".

(** The pattern after its first group: the keyword, one character, and the
    second group. *)
Definition after_path (r : string) : option string :=
  r ← Py.strip_prefix keyword r;
  r ← Re.any_char r;
  '(g, c) ← Re.dot_star Re.word_char r;
  Some (g +:+ String c EmptyString).

(** * Notions used in the further properties *)

(** The character occurs in the string. *)
Fixpoint has_char (c : ascii) (s : string) : bool :=
  match s with
  | EmptyString => false
  | String x s' => Ascii.eqb x c || has_char c s'
  end.

(** The keys of the table have no slash. *)
Definition short_keys (T : occurrences) : Prop :=
  ∀ n, is_Some (T !! n) → has_char Py.slash n = false.

(** Only whitespace in the string. *)
Fixpoint all_space (s : string) : bool :=
  match s with
  | EmptyString => true
  | String c s' => Py.is_space c && all_space s'
  end.

(** A row the extractor skips: its object type is text that does not hold
    [Requirement]. *)
Definition skipped (r : row) : bool :=
  match object_type_cell r with
  | CStr object_type => negb (Py.contains "Requirement" object_type)
  | CNone | CNum _ => false
  end.

(** The cells table against the parameters table, over the rows [seen]:
    a row is kept for every registered name but the empty one, and it is
    a row that defines the name with the value registered. *)
Definition cells_match (P : gmap string string) (C : gmap string row)
    (seen : list row) : Prop :=
  (∀ n, is_Some (C !! n) ↔ is_Some (P !! n) ∧ n ≠ "")
  ∧ ∀ n r, C !! n = Some r →
      r ∈ seen ∧ ∃ v, defines r n v ∧ P !! n = Some v.

(** A registered requirement as the extractor leaves it: the name has no
    white space at either end; neither the name nor the value holds a line
    feed; the value ends with a word character. *)
Definition well_formed (n v : string) : Prop :=
  Py.strip n = n
  ∧ has_char Py.newline n = false
  ∧ has_char Py.newline v = false
  ∧ ∃ g w, v = g +:+ String w "" ∧ Py.is_word w = true.

(** The row with the status in its fourth cell and the comment in its
    seventh, when it has seven cells. *)
Definition marked (status comment : string) (r : row) : option row :=
  if decide (5 ≤ List.length (other_cells r))%nat then
    Some {| object_type_cell := object_type_cell r;
            text_cell := text_cell r;
            other_cells :=
              <[4 := CStr comment]> (<[1 := CStr status]> (other_cells r)) |}
  else None.

(** The status and the comment [generate_report] leaves for a name: those
    of the last of the four dictionaries that holds it. *)
Definition remark (b : buckets) (n : string) : option (string * string) :=
  if decide (is_Some (not_equal_expected_actual_values b !! n)) then
    Some ("Follow-up", "Values available in config but don't match")
  else if decide (is_Some (cannot_decide_value b !! n)) then
    Some ("Follow-up", "Multiple different values in config")
  else if decide (is_Some (nothing_found_container b !! n)) then
    Some ("Follow-up", "Not found in config")
  else if decide (is_Some (values_as_expected b !! n)) then
    Some ("Agreed", "Found in config and value is matching.")
  else None.

(** The invariant of [generate_report] between its tables: [rem] gives the
    remark of the names met so far, [C] is the table it started from. *)
Definition report_ok (rem : string → option (string * string))
    (C : gmap string row) (state : report_exn + report_state) : Prop :=
  match state with
  | inr (_, C') =>
      ∀ n, match rem n with
           | Some (s, c) =>
               is_Some (C !! n ≫= marked s c)
               ∧ C' !! n = C !! n ≫= marked s c
           | None => C' !! n = C !! n
           end
  | inl (KeyError k) => is_Some (rem k) ∧ C !! k = None
  | inl TupleIndexError =>
      ∃ k r, is_Some (rem k) ∧ C !! k = Some r
             ∧ ¬ (5 ≤ List.length (other_cells r))%nat
  end.

(** * Properties *)

(** ** Strings and the error monad *)

Lemma bind_ok {A B} (r : result A) (k : A → result B) (b : B) :
  r ≫= k = Ok b ↔ ∃ a, r = Ok a ∧ k a = Ok b.
Proof.
  destruct r as [a|e]; simpl; split.
  - eauto.
  - by intros (a' & [= ->] & Hk).
  - done.
  - by intros (a' & Ha & _).
Qed.

Lemma append_cons (x : ascii) (a b : string) :
  String x a +:+ b = String x (a +:+ b).
Proof. reflexivity. Qed.

Lemma append_nil (b : string) : "" +:+ b = b.
Proof. reflexivity. Qed.

Lemma append_assoc (a b c : string) : (a +:+ b) +:+ c = a +:+ (b +:+ c).
Proof.
  induction a as [|x a IH]; [done|]. rewrite !append_cons. by f_equal.
Qed.

Lemma append_empty_r (a : string) : a +:+ "" = a.
Proof.
  induction a as [|x a IH]; [done|]. rewrite append_cons. by f_equal.
Qed.

Lemma split_cons (sep : ascii) (s : string) :
  ∃ x l, Py.split sep s = x :: l.
Proof.
  induction s as [|c s IH]; simpl; [eauto|].
  destruct (Ascii.eqb c sep); [eauto|].
  destruct IH as (x & l & ->). eauto.
Qed.

Lemma last_ok (l : list string) : l ≠ [] → ∃ x, Py.last l = Ok x.
Proof.
  induction l as [|a [|b l] IH]; [done | eauto |].
  intros _. by apply IH.
Qed.

Lemma last_split_ok (sep : ascii) (s : string) :
  ∃ x, Py.last (Py.split sep s) = Ok x.
Proof. destruct (split_cons sep s) as (x & l & ->). by apply last_ok. Qed.

Lemma first_split (sep : ascii) (s : string) :
  Py.first (Py.split sep s) = Ok (before sep s).
Proof.
  induction s as [|c s IH]; simpl; [done|].
  destruct (Ascii.eqb c sep); [done|].
  destruct (Py.split sep s) as [|f fs]; simpl in *; [done|].
  by injection IH as ->.
Qed.

(** [processed] cuts the upper-cased string before its first space. *)
Lemma processed_before (s : string) :
  processed s = Ok (before Py.space (Py.upper s)).
Proof. apply first_split. Qed.

(** ** One parameter: [compute_param] *)

Lemma index_complete (o : list string) :
  complete o →
  Py.index o 0 = Ok (file_of o) ∧ Py.index o 1 = Ok (line_of o)
  ∧ Py.index o 2 = Ok (value_of o).
Proof.
  unfold complete. destruct o as [|a [|b [|c o]]]; simpl; [lia..|done].
Qed.

Lemma index_incomplete {B} (o : list string)
    (k : string → string → string → result B) :
  ¬ complete o →
  (file ← Py.index o 0; line ← Py.index o 1; actual_value ← Py.index o 2;
   k file line actual_value) = Raise IndexError.
Proof.
  unfold complete. destruct o as [|a [|b [|c o]]]; simpl; try done.
  intros []. lia.
Qed.

Lemma collect_complete (l : list (list string)) (ff af : string)
    (vd : gset string) :
  Forall complete l →
  collect l ff af vd
  = Ok (ff +:+ found_fields l, af +:+ value_fields l,
        list_to_set (values l) ∪ vd).
Proof.
  intros Hl. revert ff af vd.
  induction Hl as [|o l Ho Hl IH]; intros ff af vd; simpl.
  - by rewrite !append_empty_r, (left_id_L ∅ (∪)).
  - destruct (index_complete o Ho) as (-> & -> & ->). simpl.
    rewrite IH, !append_assoc. do 2 f_equal.
    by rewrite (assoc_L (∪)), (comm_L (∪) _ {[value_of o]}).
Qed.

Lemma collect_incomplete (l : list (list string)) (ff af : string)
    (vd : gset string) :
  ¬ Forall complete l → collect l ff af vd = Raise IndexError.
Proof.
  revert ff af vd. induction l as [|o l IH]; intros ff af vd Hl.
  - destruct Hl. constructor.
  - simpl. destruct (decide (complete o)) as [Ho|Ho].
    + destruct (index_complete o Ho) as (-> & -> & ->). simpl.
      apply IH. intros Hl'. apply Hl. by constructor.
    + by apply index_incomplete.
Qed.

(** What [compute_param] does on complete occurrences, with the loop
    replaced by its result. *)
Lemma compute_param_complete (n ev : string) (l : list (list string)) :
  Forall complete l →
  compute_param n ev l
  = if decide (1 < size (distinct_values l)) then
      Ok (∅,
          {[n := get_container_dict n ev
                   (value_fields l +:+ could_not_decide) (found_fields l)]},
          ∅)
    else
      match elements (distinct_values l) with
      | [] => Raise StopIteration
      | v :: _ =>
          if decide (normal v = normal ev) then
            Ok ({[n := get_container_dict n ev
                         (value_fields l +:+ computed_line (normal v))
                         (found_fields l)]}, ∅, ∅)
          else
            Ok (∅, ∅,
                {[n := get_container_dict n ev
                         (value_fields l +:+ computed_line (normal v))
                         (found_fields l)]})
      end.
Proof.
  intros Hl. unfold compute_param.
  rewrite (collect_complete l "" "" ∅ Hl). simpl.
  rewrite (right_id_L ∅ (∪)), !append_nil. fold (distinct_values l).
  destruct (decide (1 < size (distinct_values l))); [done|].
  destruct (elements (distinct_values l)) as [|v vs]; [done|].
  rewrite !processed_before. simpl. fold (normal v) (normal ev).
  by destruct (decide (normal v = normal ev)).
Qed.

Lemma compute_param_incomplete (n ev : string) (l : list (list string)) :
  ¬ Forall complete l → compute_param n ev l = Raise IndexError.
Proof.
  intros Hl. unfold compute_param.
  by rewrite (collect_incomplete l "" "" ∅ Hl).
Qed.

Lemma elem_of_distinct_values (v : string) (l : list (list string)) :
  v ∈ distinct_values l ↔ ∃ o, o ∈ l ∧ value_of o = v.
Proof.
  unfold distinct_values, values.
  rewrite elem_of_list_to_set, list_elem_of_fmap. naive_solver.
Qed.

Lemma distinct_values_two (l : list (list string)) (o1 o2 : list string) :
  o1 ∈ l → o2 ∈ l → value_of o1 ≠ value_of o2 →
  1 < size (distinct_values l).
Proof.
  intros H1 H2 Hne.
  assert (Hsub : ({[value_of o1]} ∪ {[value_of o2]} : gset string)
                 ⊆ distinct_values l).
  { intros v [Hv|Hv]%elem_of_union; apply elem_of_singleton in Hv as ->;
      apply elem_of_distinct_values; eauto. }
  apply subseteq_size in Hsub.
  rewrite size_union, !size_singleton in Hsub; [lia|].
  by apply disjoint_singleton_l, not_elem_of_singleton.
Qed.


Lemma distinct_values_nil (l : list (list string)) :
  distinct_values l = ∅ ↔ l = [].
Proof.
  split; [|by intros ->].
  destruct l as [|o l]; [done|]. intros He.
  assert (value_of o ∈ distinct_values (o :: l)) as Hin.
  { apply elem_of_distinct_values. exists o. split; [left|done]. }
  rewrite He in Hin. by apply not_elem_of_empty in Hin.
Qed.

Lemma distinct_values_perm (l l' : list (list string)) :
  l ≡ₚ l' → distinct_values l = distinct_values l'.
Proof.
  intros Hp. apply set_eq. intros x. rewrite !elem_of_distinct_values.
  by setoid_rewrite Hp.
Qed.

Lemma compute_param_ok (n ev : string) (l : list (list string)) :
  Forall complete l → l ≠ [] →
  ∃ r, compute_param n ev l = Ok r ∧ placed n ev r.
Proof.
  intros Hl Hne. rewrite compute_param_complete by done.
  destruct (decide (1 < size (distinct_values l))).
  { eexists; split; [done|]. by constructor. }
  destruct (elements (distinct_values l)) as [|v vs] eqn:He.
  { apply elements_empty_inv, leibniz_equiv, distinct_values_nil in He.
    done. }
  destruct (decide (normal v = normal ev));
    (eexists; split; [done|]); by constructor.
Qed.

Lemma compute_param_raise (n ev : string) (l : list (list string)) (e : exn) :
  compute_param n ev l = Raise e →
  (l = [] ∧ e = StopIteration) ∨ (¬ Forall complete l ∧ e = IndexError).
Proof.
  intros He. destruct (decide (Forall complete l)) as [Hl|Hl].
  - destruct l as [|o l].
    + left. split; [done|]. vm_compute in He. congruence.
    + destruct (compute_param_ok n ev (o :: l) Hl) as (r & Hr & _); [done|].
      congruence.
  - right. split; [done|]. rewrite compute_param_incomplete in He by done.
    congruence.
Qed.

Lemma compute_param_empty (n ev : string) :
  compute_param n ev [] = Raise StopIteration.
Proof. reflexivity. Qed.

Lemma compute_param_placed (n ev : string) (l : list (list string))
    (r : bucket * bucket * bucket) :
  compute_param n ev l = Ok r →
  Forall complete l ∧ l ≠ [] ∧ placed n ev r.
Proof.
  intros Hr. destruct (decide (Forall complete l)) as [Hl|Hl].
  - destruct l as [|o l]; [by rewrite compute_param_empty in Hr|].
    destruct (compute_param_ok n ev (o :: l) Hl) as (r' & Hr' & Hp); [done|].
    rewrite Hr' in Hr. by injection Hr as <-.
  - by rewrite compute_param_incomplete in Hr.
Qed.

(** ** All parameters: [compute_params] *)

Lemma placed_other (n ev m : string) (r0 r1 r2 : bucket) :
  placed n ev (r0, r1, r2) → m ≠ n →
  r0 !! m = None ∧ r1 !! m = None ∧ r2 !! m = None.
Proof.
  intros Hp Hm. inversion Hp; subst;
    rewrite ?lookup_empty, ?lookup_singleton_ne by done; done.
Qed.

Lemma rounds_done_round (T : occurrences) (m : gmap string string)
    (i x : string) (state : result (buckets * console)) :
  m !! i = None → rounds_done T m state →
  rounds_done T (<[i := x]> m) (compute_params_round T i x state).
Proof.
  intros Hi Hst. destruct state as [[b out]|e]; simpl.
  2:{ destruct Hst as (n & ev & l & Hn & Hl & He).
      exists n, ev, l. split; [|done].
      rewrite lookup_insert_ne; [done|]. intros ->. congruence. }
  destruct Hst as [Hsound Hb]. unfold compute_params_round. simpl.
  destruct (T !! i) as [l|] eqn:HT.
  - destruct (compute_param i x l) as [[[r0 r1] r2]|e] eqn:Hc; simpl.
    2:{ exists i, x, l. by rewrite lookup_insert_eq. }
    destruct (compute_param_placed _ _ _ _ Hc) as (Hl & Hne & Hp).
    split.
    + intros n Hn. destruct (decide (n = i)) as [->|Hni].
      * intros l' Hl'. rewrite HT in Hl'. by injection Hl' as <-.
      * rewrite lookup_insert_ne in Hn by done. by apply Hsound.
    + intros v n. destruct (decide (n = i)) as [->|Hni].
      * rewrite lookup_insert_eq. simpl. unfold entry. rewrite HT, Hc.
        pose proof (Hb v i) as Hv. rewrite Hi in Hv. simpl in Hv.
        destruct v; simpl in *; rewrite ?lookup_union, ?Hv;
          by rewrite ?(right_id_L None union).
      * rewrite lookup_insert_ne by done. rewrite <- Hb.
        destruct (placed_other _ _ n _ _ _ Hp Hni) as (H0 & H1 & H2).
        destruct v; simpl; rewrite ?lookup_union, ?H0, ?H1, ?H2;
          by rewrite ?(left_id_L None union).
  - split.
    + intros n Hn. destruct (decide (n = i)) as [->|Hni].
      * intros l' Hl'. congruence.
      * rewrite lookup_insert_ne in Hn by done. by apply Hsound.
    + intros v n. destruct (decide (n = i)) as [->|Hni].
      * rewrite lookup_insert_eq. simpl. unfold entry. rewrite HT.
        pose proof (Hb v i) as Hv. rewrite Hi in Hv. simpl in Hv.
        destruct v; simpl in *; rewrite ?lookup_insert_eq; done.
      * rewrite lookup_insert_ne by done. rewrite <- Hb.
        destruct v; simpl; rewrite ?lookup_insert_ne; done.
Qed.

Lemma compute_params_rounds (P : gmap string string) (T : occurrences)
    (out : console) :
  rounds_done T P (compute_params P T out).
Proof.
  unfold compute_params.
  apply (map_fold_weak_ind (λ r m, rounds_done T m r)).
  - simpl. split; [by intros n [? ?%lookup_empty_Some]|].
    intros v n. rewrite lookup_empty. by destruct v.
  - intros i x m r Hi Hr. by apply rounds_done_round.
Qed.

Lemma entry_unique (T : occurrences) (v w : verdict) (n ev : string) :
  is_Some (entry T v n ev) → is_Some (entry T w n ev) → v = w.
Proof.
  unfold entry. destruct (T !! n) as [l|].
  - destruct (compute_param n ev l) as [[[r0 r1] r2]|e] eqn:Hc.
    2:{ by intros [? ?]. }
    destruct (compute_param_placed _ _ _ _ Hc) as (_ & _ & Hp).
    inversion Hp; subst; destruct v, w; rewrite ?lookup_empty;
      try done; by intros [? ?] [? ?].
  - do 2 case_decide; try (by intros [? ?] [? ?]); congruence.
Qed.

Lemma entry_exists (T : occurrences) (n ev : string) :
  sound_for T n → ∃ v c, entry T v n ev = Some c.
Proof.
  intros Hs. unfold entry. destruct (T !! n) as [l|] eqn:HT.
  - destruct (Hs l HT) as [Hl Hne].
    destruct (compute_param_ok n ev l Hl Hne) as (r & -> & Hp).
    inversion Hp as [c|c|c]; subst.
    + exists AGREED, c. by rewrite lookup_singleton_eq.
    + exists AMBIGUOUS, c. by rewrite lookup_singleton_eq.
    + exists MISMATCHED, c. by rewrite lookup_singleton_eq.
  - exists NOT_FOUND, (not_found n ev). by rewrite decide_True.
Qed.

(** [compute_params] returns exactly when every round does. *)
Lemma compute_params_returns (P : gmap string string) (T : occurrences)
    (out : console) :
  (∀ n, is_Some (P !! n) → sound_for T n) →
  ∃ b out', compute_params P T out = Ok (b, out').
Proof.
  intros Hs. pose proof (compute_params_rounds P T out) as Hr.
  destruct (compute_params P T out) as [[b out']|e]; [eauto|].
  destruct Hr as (n & ev & l & Hn & Hl & He).
  destruct (Hs n (mk_is_Some _ _ Hn) l Hl) as [Hc Hne].
  destruct (compute_param_ok n ev l Hc Hne) as (r & Hr & _). congruence.
Qed.

Lemma compute_params_lookup (P : gmap string string) (T : occurrences)
    (out out' : console) (b : buckets) :
  compute_params P T out = Ok (b, out') →
  (∀ n, is_Some (P !! n) → sound_for T n)
  ∧ ∀ v n, bucket_of v b !! n = P !! n ≫= entry T v n.
Proof.
  intros Hb. pose proof (compute_params_rounds P T out) as Hr.
  by rewrite Hb in Hr.
Qed.

Lemma compute_params_partition (P : gmap string string) (T : occurrences)
    (out out' : console) (b : buckets) :
  compute_params P T out = Ok (b, out') → partition b (dom P).
Proof.
  intros Hb. destruct (compute_params_lookup _ _ _ _ _ Hb) as [Hs Hl].
  assert (Hin : ∀ v n, n ∈ dom (bucket_of v b) ↔
                       ∃ ev, P !! n = Some ev ∧ is_Some (entry T v n ev)).
  { intros v n. rewrite elem_of_dom, Hl.
    destruct (P !! n) as [ev|]; simpl; [naive_solver|].
    split; [by intros [? ?] | by intros (? & ? & ?)]. }
  split.
  - intros v w Hvw n (ev & Hev & Hv)%Hin (ev' & Hev' & Hw)%Hin.
    rewrite Hev in Hev'. injection Hev' as <-.
    by apply Hvw, (entry_unique T v w n ev).
  - apply set_eq. intros n.
    change (n ∈ dom (bucket_of AGREED b) ∪ dom (bucket_of NOT_FOUND b)
              ∪ dom (bucket_of AMBIGUOUS b) ∪ dom (bucket_of MISMATCHED b)
            ↔ n ∈ dom P).
    rewrite !elem_of_union, !Hin, elem_of_dom. split.
    + intros [[[H|H]|H]|H]; destruct H as (ev & -> & _); eauto.
    + intros [ev Hev].
      destruct (entry_exists T n ev) as (v & c & Hc).
      { apply Hs. eauto. }
      destruct v; [left; left; left | left; left; right | left; right | right];
        exists ev; rewrite Hc; eauto.
Qed.

(** ** The claims on the reconciliation engine *)




(** C3: when two occurrences of a parameter carry different values, the
    parameter is filed under [cannot_decide_value] and nowhere else.  The
    values are compared as extracted; the actual-value field lists them raw,
    followed by the fixed notice, and no value is normalized.  Every
    reordering of the occurrences has the same outcome. *)
Theorem several_values_ambiguous
    (param_name param_expected_value : string)
    (param_result reordered : list (list string)) (o1 o2 : list string) :
  Forall complete param_result →
  o1 ∈ param_result → o2 ∈ param_result → value_of o1 ≠ value_of o2 →
  reordered ≡ₚ param_result →
  compute_param param_name param_expected_value param_result
  = Ok (∅,
        {[param_name :=
            get_container_dict param_name param_expected_value
              (value_fields param_result +:+ could_not_decide)
              (found_fields param_result)]},
        ∅)
  ∧ compute_param param_name param_expected_value reordered
    = Ok (∅,
          {[param_name :=
              get_container_dict param_name param_expected_value
                (value_fields reordered +:+ could_not_decide)
                (found_fields reordered)]},
          ∅).
Proof.
  intros Hl H1 H2 Hne Hp.
  assert (Hamb : ∀ l, l ≡ₚ param_result →
    compute_param param_name param_expected_value l
    = Ok (∅,
          {[param_name :=
              get_container_dict param_name param_expected_value
                (value_fields l +:+ could_not_decide) (found_fields l)]},
          ∅)).
  { intros l Hperm. rewrite compute_param_complete by by rewrite Hperm.
    rewrite decide_True; [done|].
    apply (distinct_values_two l o1 o2); by rewrite ?Hperm. }
  split; by apply Hamb.
Qed.

Lemma several_values_ambiguous_witness :
  compute_param "P" "A"
    [["a.arxml"; "l1"; "A"]; ["b.arxml"; "l2"; "B"]]
  = Ok (∅,
        {["P" := get_container_dict "P" "A"
                   (value_fields
                      [["a.arxml"; "l1"; "A"]; ["b.arxml"; "l2"; "B"]]
                    +:+ could_not_decide)
                   (found_fields
                      [["a.arxml"; "l1"; "A"]; ["b.arxml"; "l2"; "B"]])]},
        ∅)
  ∧ compute_param "P" "A"
      [["b.arxml"; "l2"; "B"]; ["a.arxml"; "l1"; "A"]]
    = Ok (∅,
          {["P" := get_container_dict "P" "A"
                     (value_fields
                        [["b.arxml"; "l2"; "B"]; ["a.arxml"; "l1"; "A"]]
                      +:+ could_not_decide)
                     (found_fields
                        [["b.arxml"; "l2"; "B"]; ["a.arxml"; "l1"; "A"]])]},
          ∅).
Proof.
  apply (several_values_ambiguous "P" "A"
           [["a.arxml"; "l1"; "A"]; ["b.arxml"; "l2"; "B"]]
           [["b.arxml"; "l2"; "B"]; ["a.arxml"; "l1"; "A"]]
           ["a.arxml"; "l1"; "A"] ["b.arxml"; "l2"; "B"]).
  - repeat constructor.
  - apply list_elem_of_In. simpl. auto.
  - apply list_elem_of_In. simpl. auto.
  - vm_compute. congruence.
  - apply perm_swap.
Defined.

(** Values that differ only in case or in their unit are still different
    values: nothing is normalized before the values are compared. *)
Example raw_values_compared :
  normal "10 ms" = normal "10 MS"
  ∧ ∃ c, compute_param "P" "10"
           [["a.arxml"; "l1"; "10 ms"]; ["b.arxml"; "l2"; "10 MS"]]
         = Ok (∅, {["P" := c]}, ∅).
Proof. split; [reflexivity|]. eexists. vm_compute. reflexivity. Qed.

(** C4: an expected parameter whose name has no entry in the occurrence
    table is filed by its round of the loop under [nothing_found_container],
    with both [actual_value] and [found_in] set to the marker [not found]
    and [expected_value] kept as it was; the round never raises.  Hence in
    what [compute_params] returns the parameter is in that dictionary and in
    no other; [compute_params] fails to return only when the entry of some
    other expected parameter is empty or has an incomplete occurrence. *)
Theorem absent_parameter_not_found
    (parameters : gmap string string) (param_search_result : occurrences)
    (out : console) (param_name param_expected_value : string) :
  parameters !! param_name = Some param_expected_value →
  param_search_result !! param_name = None →
  (∀ b o,
     compute_params_round param_search_result param_name
       param_expected_value (Ok (b, o))
     = Ok ({| values_as_expected := values_as_expected b;
              nothing_found_container :=
                <[param_name :=
                    {| name := param_name;
                       expected_value := param_expected_value;
                       actual_value := "not found";
                       found_in := "not found" |}]>
                  (nothing_found_container b);
              cannot_decide_value := cannot_decide_value b;
              not_equal_expected_actual_values :=
                not_equal_expected_actual_values b |},
           print ("No results found for " +:+ param_name) o))
  ∧ match compute_params parameters param_search_result out with
    | Ok (b, _) =>
        nothing_found_container b !! param_name
        = Some {| name := param_name;
                  expected_value := param_expected_value;
                  actual_value := "not found";
                  found_in := "not found" |}
        ∧ values_as_expected b !! param_name = None
        ∧ cannot_decide_value b !! param_name = None
        ∧ not_equal_expected_actual_values b !! param_name = None
    | Raise _ =>
        ∃ n l, n ≠ param_name ∧ is_Some (parameters !! n)
               ∧ param_search_result !! n = Some l
               ∧ (l = [] ∨ ¬ Forall complete l)
    end.
Proof.
  intros HP HT. split.
  { intros b o. unfold compute_params_round. simpl. by rewrite HT. }
  pose proof (compute_params_rounds parameters param_search_result out) as Hr.
  destruct (compute_params parameters param_search_result out)
    as [[b out']|e].
  - destruct Hr as [_ Hl].
    pose proof (λ v, Hl v param_name) as Hv.
    rewrite HP in Hv. simpl in Hv. unfold entry in Hv. rewrite HT in Hv.
    repeat split.
    + exact (Hv NOT_FOUND).
    + exact (Hv AGREED).
    + exact (Hv AMBIGUOUS).
    + exact (Hv MISMATCHED).
  - destruct Hr as (n & ev & l & Hn & Hl & He).
    exists n, l. split; [intros ->; congruence|].
    split; [eauto|]. split; [done|].
    apply compute_param_raise in He as [[-> _]|[Hc _]]; auto.
Qed.

Lemma absent_parameter_not_found_witness :
  match compute_params {["p" := "1"; "q" := "2 ms"]}
          {["p" := [["a.arxml"; "l"; "1"]]]} [] with
  | Ok (b, _) =>
      nothing_found_container b !! "q"
      = Some {| name := "q"; expected_value := "2 ms";
                actual_value := "not found"; found_in := "not found" |}
      ∧ values_as_expected b !! "q" = None
      ∧ cannot_decide_value b !! "q" = None
      ∧ not_equal_expected_actual_values b !! "q" = None
  | Raise _ =>
      ∃ n l, n ≠ "q"
             ∧ is_Some (({["p" := "1"; "q" := "2 ms"]}
                         : gmap string string) !! n)
             ∧ ({["p" := [["a.arxml"; "l"; "1"]]]} : occurrences) !! n
               = Some l
             ∧ (l = [] ∨ ¬ Forall complete l)
  end.
Proof.
  apply (absent_parameter_not_found {["p" := "1"; "q" := "2 ms"]}
           {["p" := [["a.arxml"; "l"; "1"]]]} [] "q" "2 ms").
  - vm_compute. reflexivity.
  - vm_compute. reflexivity.
Defined.

(** ** Order of the occurrences *)

Lemma compute_param_perm (n ev : string) (l l' : list (list string)) :
  l ≡ₚ l' →
  match compute_param n ev l, compute_param n ev l' with
  | Ok (r0, r1, r2), Ok (r0', r1', r2') =>
      ∃ suffix,
        let c := get_container_dict n ev (value_fields l +:+ suffix)
                   (found_fields l) in
        let c' := get_container_dict n ev (value_fields l' +:+ suffix)
                    (found_fields l') in
        ((r0, r1, r2) = ({[n := c]}, ∅, ∅)
         ∧ (r0', r1', r2') = ({[n := c']}, ∅, ∅))
        ∨ ((r0, r1, r2) = (∅, {[n := c]}, ∅)
           ∧ (r0', r1', r2') = (∅, {[n := c']}, ∅))
        ∨ ((r0, r1, r2) = (∅, ∅, {[n := c]})
           ∧ (r0', r1', r2') = (∅, ∅, {[n := c']}))
  | Raise e, Raise e' => e = e'
  | _, _ => False
  end.
Proof.
  intros Hp. destruct (decide (Forall complete l)) as [Hl|Hl].
  - assert (Hl' : Forall complete l') by by rewrite <- Hp.
    rewrite !compute_param_complete by done.
    rewrite <- (distinct_values_perm l l' Hp).
    destruct (decide (1 < size (distinct_values l))).
    { exists could_not_decide. simpl. auto. }
    destruct (elements (distinct_values l)) as [|v vs]; [done|].
    destruct (decide (normal v = normal ev));
      exists (computed_line (normal v)); simpl; auto.
  - assert (Hl' : ¬ Forall complete l') by by rewrite <- Hp.
    by rewrite !compute_param_incomplete.
Qed.

Lemma same_outcome_round (T T' : occurrences) (n ev : string)
    (r r' : result (buckets * console)) :
  (∀ n, option_Forall2 (≡ₚ) (T !! n) (T' !! n)) →
  same_outcome T T' r r' →
  same_outcome T T' (compute_params_round T n ev r)
    (compute_params_round T' n ev r').
Proof.
  intros HT Hr.
  destruct r as [[b o]|e], r' as [[b' o']|e']; simpl in *; try done.
  rename Hr into Hb. unfold compute_params_round. simpl.
  pose proof (HT n) as Hn.
  destruct (T !! n) as [l|] eqn:Hl, (T' !! n) as [l'|] eqn:Hl';
    inversion Hn as [? ? Hp|]; subst.
  - pose proof (compute_param_perm n ev l l' Hp) as Hc.
    destruct (compute_param n ev l) as [[[r0 r1] r2]|e],
             (compute_param n ev l') as [[[r0' r1'] r2']|e'];
      simpl in *; try done.
    intros v m.
    destruct Hc as (suffix & Hc).
    assert (Hnew : same_up_to_order T T' n
              (get_container_dict n ev (value_fields l +:+ suffix)
                 (found_fields l))
              (get_container_dict n ev (value_fields l' +:+ suffix)
                 (found_fields l'))).
    { unfold same_up_to_order. rewrite Hl, Hl'. simpl.
      repeat split; try done. by exists suffix. }
    pose proof (Hb v m) as Hold.
    destruct Hc as [[[= -> -> ->] [= -> -> ->]]
                   |[[[= -> -> ->] [= -> -> ->]]
                    |[[= -> -> ->] [= -> -> ->]]]];
      destruct v; simpl in *; rewrite ?lookup_union, ?lookup_empty;
      rewrite ?(left_id_L None union); try done;
      (destruct (decide (m = n)) as [->|Hm];
       [rewrite !lookup_singleton_eq; simpl;
        rewrite !union_Some_l; by constructor
       |rewrite !lookup_singleton_ne by done;
        by rewrite !(left_id_L None union)]).
  - intros v m. pose proof (Hb v m) as Hold.
    destruct v; simpl in *; try done.
    destruct (decide (m = n)) as [->|Hm].
    + rewrite !lookup_insert_eq. constructor.
      unfold same_up_to_order. by rewrite Hl.
    + by rewrite !lookup_insert_ne.
Qed.

Lemma lookup_empty_bucket_of (v : verdict) (n : string) :
  bucket_of v no_buckets !! n = None.
Proof. by destruct v. Qed.

Lemma same_buckets_dom (T T' : occurrences) (b b' : buckets) (v : verdict) :
  same_buckets T T' b b' → dom (bucket_of v b) = dom (bucket_of v b').
Proof.
  intros Hb. apply set_eq. intros n. rewrite !elem_of_dom.
  destruct (Hb v n); split; intros [? ?]; eauto; done.
Qed.

Lemma same_outcome_compute_params (P : gmap string string)
    (T T' : occurrences) (out out' : console) :
  (∀ n, option_Forall2 (≡ₚ) (T !! n) (T' !! n)) →
  same_outcome T T' (compute_params P T out) (compute_params P T' out').
Proof.
  intros HT. unfold compute_params. rewrite !map_fold_foldr.
  induction (map_to_list P) as [|[n ev] items IH]; simpl.
  - intros v n. rewrite !lookup_empty_bucket_of. constructor.
  - by apply same_outcome_round.
Qed.

(** ** The configuration scanner *)

(** One turn of the loop over the lines, by the kind of line. *)
Lemma scan_lines_cons (P : gmap string string) (f line : string)
    (rest : list string) (pd : occurrences) (out : console) :
  scan_lines P f (line :: rest) pd out
  = match recognized P line with
    | None => scan_lines P f rest pd out
    | Some n =>
        match rest with
        | [] => Raise StopIteration
        | next_line :: rest' =>
            match value_pattern (Py.strip next_line) with
            | Some value =>
                scan_lines P f rest'
                  (add_occurrence n [f; Py.strip line; value] pd) out
            | None =>
                scan_lines P f rest' pd
                  (print (discarding_message n line f) out)
            end
        end
    end.
Proof.
  unfold recognized. simpl.
  destruct (Py.contains "DEFINITION-REF" line); [|done].
  destruct (param_pattern line) as [g|]; [|done].
  destruct (last_split_ok Py.slash g) as [n ->].
  by destruct (decide (is_Some (P !! n))).
Qed.

(** Induction over the lines the way the loop consumes them, one line or
    two at a time. *)
Lemma lines_ind (Q : list string → Prop) :
  Q [] →
  (∀ line rest,
     Q rest → (∀ next_line rest', rest = next_line :: rest' → Q rest') →
     Q (line :: rest)) →
  ∀ ls, Q ls.
Proof.
  intros Hnil Hcons ls.
  assert (H : Q ls ∧ ∀ y l', ls = y :: l' → Q l'); [|by destruct H].
  induction ls as [|x ls [IH1 IH2]].
  - split; [done|]. by intros y l' [=].
  - split; [by apply Hcons|]. by intros y l' [= -> ->].
Qed.

Lemma scanned_add (P : gmap string string) (T : occurrences)
    (n f ln v : string) :
  is_Some (P !! n) → scanned P T →
  scanned P (add_occurrence n [f; ln; v] T).
Proof.
  intros Hn HT m l. unfold add_occurrence.
  destruct (T !! n) as [found|] eqn:Hf;
    (destruct (decide (m = n)) as [->|Hm];
     [rewrite lookup_insert_eq; intros [= <-]
     |rewrite lookup_insert_ne by done; by apply HT]).
  - destruct (HT n found Hf) as (_ & Hne & Hall).
    split; [done|]. split; [by destruct found|].
    apply Forall_app. split; [done|]. repeat constructor. by exists f, ln, v.
  - split; [done|]. split; [done|]. repeat constructor. by exists f, ln, v.
Qed.

Lemma recognized_expected (P : gmap string string) (line n : string) :
  recognized P line = Some n → is_Some (P !! n).
Proof.
  unfold recognized. destruct (Py.contains _ line); [|done].
  destruct (param_pattern line) as [g|]; [|done].
  destruct (Py.last _) as [m|]; [|done].
  destruct (decide (is_Some (P !! m))); [|done]. by intros [= <-].
Qed.

Lemma scan_lines_scanned (P : gmap string string) (f : string)
    (ls : list string) :
  ∀ pd out, scanned P pd →
    match scan_lines P f ls pd out with
    | Ok (pd', _) => scanned P pd'
    | Raise e => e = StopIteration
    end.
Proof.
  induction ls as [|line rest IH1 IH2] using lines_ind; intros pd out Hpd.
  - done.
  - rewrite scan_lines_cons.
    destruct (recognized P line) as [n|] eqn:Hn; [|by apply IH1].
    destruct rest as [|next_line rest']; [done|].
    destruct (value_pattern (Py.strip next_line)) as [v|].
    + apply (IH2 _ _ eq_refl).
      apply scanned_add; [|done]. by apply (recognized_expected P line).
    + by apply (IH2 _ _ eq_refl).
Qed.

Lemma scan_files_scanned (P : gmap string string)
    (files : list (string * list string)) :
  ∀ pd out, scanned P pd →
    match scan_files P files pd out with
    | Ok (pd', _) => scanned P pd'
    | Raise e => e = StopIteration
    end.
Proof.
  induction files as [|[f ls] files IH]; intros pd out Hpd; simpl; [done|].
  pose proof (scan_lines_scanned P f ls pd
                (print ("analysing file " +:+ f +:+ " ...") out) Hpd) as H.
  destruct (scan_lines P f ls pd _) as [[pd' out']|e]; simpl; [|done].
  by apply IH.
Qed.

Lemma triple_complete (l : list (list string)) :
  Forall triple l → Forall complete l.
Proof.
  intros Hl. eapply Forall_impl; [exact Hl|].
  intros o (f & ln & v & ->). unfold complete. simpl. lia.
Qed.

(** C1: for every expected-parameter table and every occurrence table, the
    four dictionaries [compute_params] returns have pairwise disjoint key
    sets, and the union of their keys is exactly the set of expected
    parameter names.  [compute_params] returns whenever the entry of each
    expected parameter, when there is one, is a non-empty list of
    occurrences with their three components; such is every table
    [search_for_param] returns. *)
Theorem compute_params_buckets_partition
    (parameters : gmap string string) (param_search_result : occurrences)
    (out : console) :
  (∀ b out',
     compute_params parameters param_search_result out = Ok (b, out') →
     dom (values_as_expected b) ## dom (nothing_found_container b)
     ∧ dom (values_as_expected b) ## dom (cannot_decide_value b)
     ∧ dom (values_as_expected b) ## dom (not_equal_expected_actual_values b)
     ∧ dom (nothing_found_container b) ## dom (cannot_decide_value b)
     ∧ dom (nothing_found_container b)
       ## dom (not_equal_expected_actual_values b)
     ∧ dom (cannot_decide_value b) ## dom (not_equal_expected_actual_values b)
     ∧ dom (values_as_expected b) ∪ dom (nothing_found_container b)
       ∪ dom (cannot_decide_value b)
       ∪ dom (not_equal_expected_actual_values b)
       = dom parameters)
  ∧ ((∀ n l, is_Some (parameters !! n) → param_search_result !! n = Some l →
             Forall complete l ∧ l ≠ []) →
     ∃ b out', compute_params parameters param_search_result out = Ok (b, out'))
  ∧ ∀ search_path out0 out1,
      search_for_param parameters search_path out0
      = Ok (param_search_result, out1) →
      ∃ b out', compute_params parameters param_search_result out = Ok (b, out').
Proof.
  split; [|split].
  - intros b out' Hb.
    destruct (compute_params_partition _ _ _ _ _ Hb) as [Hd Hu].
    repeat split; try exact Hu.
    + by apply (Hd AGREED NOT_FOUND).
    + by apply (Hd AGREED AMBIGUOUS).
    + by apply (Hd AGREED MISMATCHED).
    + by apply (Hd NOT_FOUND AMBIGUOUS).
    + by apply (Hd NOT_FOUND MISMATCHED).
    + by apply (Hd AMBIGUOUS MISMATCHED).
  - intros Hs. apply compute_params_returns.
    intros n Hn l Hl. exact (Hs n l Hn Hl).
  - intros search_path out0 out1 Hscan. apply compute_params_returns.
    intros n _ l Hl. unfold search_for_param in Hscan.
    pose proof (scan_files_scanned parameters (find_arxml_files search_path)
                  ∅ out0) as H.
    rewrite Hscan in H.
    destruct (H (λ n l Hn, False_ind _ (lookup_empty_Some _ _ Hn)) n l Hl)
      as (_ & Hne & Hall).
    split; [by apply triple_complete|done].
Qed.

Lemma compute_params_buckets_partition_witness :
  ∃ b out',
    compute_params {["p" := "1"; "q" := "2"]}
      {["p" := [["a.arxml"; "l"; "1"]]]} [] = Ok (b, out')
    ∧ dom (values_as_expected b) ## dom (nothing_found_container b)
    ∧ dom (values_as_expected b) ## dom (cannot_decide_value b)
    ∧ dom (values_as_expected b) ## dom (not_equal_expected_actual_values b)
    ∧ dom (nothing_found_container b) ## dom (cannot_decide_value b)
    ∧ dom (nothing_found_container b)
      ## dom (not_equal_expected_actual_values b)
    ∧ dom (cannot_decide_value b) ## dom (not_equal_expected_actual_values b)
    ∧ dom (values_as_expected b) ∪ dom (nothing_found_container b)
      ∪ dom (cannot_decide_value b)
      ∪ dom (not_equal_expected_actual_values b)
      = dom ({["p" := "1"; "q" := "2"]} : gmap string string).
Proof.
  destruct (compute_params_buckets_partition {["p" := "1"; "q" := "2"]}
              {["p" := [["a.arxml"; "l"; "1"]]]} []) as (Hpart & Hret & _).
  destruct Hret as (b & out' & Hb).
  { intros n l _ Hl. apply lookup_singleton_Some in Hl as [_ <-].
    split; [|done]. repeat constructor. }
  exists b, out'. split; [exact Hb|]. exact (Hpart b out' Hb).
Defined.

(** C10: every key of the occurrence table [search_for_param] returns is an
    expected parameter and maps to a non-empty list of occurrences, each a
    list of exactly three components, the value last.  Hence the set of
    values [compute_param] builds from such a list is not empty, and
    [compute_param] returns on it; [StopIteration] is the only exception
    [search_for_param] itself can raise. *)
Theorem search_for_param_occurrences
    (parameters : gmap string string) (search_path : walk) (out : console) :
  (∀ e, search_for_param parameters search_path out = Raise e →
        e = StopIteration)
  ∧ ∀ param_data out',
      search_for_param parameters search_path out = Ok (param_data, out') →
      ∀ n l, param_data !! n = Some l →
        is_Some (parameters !! n)
        ∧ l ≠ []
        ∧ Forall (λ o, ∃ file line value, o = [file; line; value]) l
        ∧ distinct_values l ≠ ∅
        ∧ ∀ ev, ∃ r, compute_param n ev l = Ok r.
Proof.
  unfold search_for_param.
  pose proof (scan_files_scanned parameters (find_arxml_files search_path)
                ∅ out) as H.
  destruct (scan_files parameters (find_arxml_files search_path) ∅ out)
    as [[T o]|e].
  - split; [done|]. intros ? ? [= <- <-] n l Hl.
    destruct (H (λ n l Hn, False_ind _ (lookup_empty_Some _ _ Hn)) n l Hl)
      as (Hn & Hne & Hall).
    repeat split; try done.
    + by rewrite distinct_values_nil.
    + intros ev.
      destruct (compute_param_ok n ev l) as (r & Hr & _);
        eauto using triple_complete.
  - split; [|done]. intros ? [= <-]. apply H.
    intros n l Hn. by apply lookup_empty_Some in Hn.
Qed.

Lemma search_for_param_occurrences_witness :
  is_Some (({["Param" := "10 ms"]} : gmap string string) !! "Param")
  ∧ [["cfg/a.arxml"; "<DEFINITION-REF DEST=x>/A/B/Param</DEFINITION-REF>";
      "10 MS"]] ≠ []
  ∧ Forall (λ o, ∃ file line value, o = [file; line; value])
      [["cfg/a.arxml"; "<DEFINITION-REF DEST=x>/A/B/Param</DEFINITION-REF>";
        "10 MS"]]
  ∧ distinct_values
      [["cfg/a.arxml"; "<DEFINITION-REF DEST=x>/A/B/Param</DEFINITION-REF>";
        "10 MS"]] ≠ ∅
  ∧ ∀ ev, ∃ r,
      compute_param "Param" ev
        [["cfg/a.arxml"; "<DEFINITION-REF DEST=x>/A/B/Param</DEFINITION-REF>";
          "10 MS"]] = Ok r.
Proof.
  apply (proj2 (search_for_param_occurrences {["Param" := "10 ms"]}
                  sample_tree [])
           {["Param" :=
               [["cfg/a.arxml";
                 "<DEFINITION-REF DEST=x>/A/B/Param</DEFINITION-REF>";
                 "10 MS"]]]}
           ["analysing file cfg/a.arxml ..."]).
  - vm_compute. reflexivity.
  - vm_compute. reflexivity.
Defined.

(** ** A definition with no value after it *)

(** When the line after a recognized definition holds no value, the
    candidate is dropped, the diagnostic is printed, the table is left as it
    was, and the scan goes on after that line. *)
Lemma definition_without_value_discarded (P : gmap string string)
    (f line next_line n : string) (rest : list string) (pd : occurrences)
    (out : console) :
  recognized P line = Some n →
  value_pattern (Py.strip next_line) = None →
  scan_lines P f (line :: next_line :: rest) pd out
  = scan_lines P f rest pd (print (discarding_message n line f) out).
Proof. intros Hn Hv. by rewrite scan_lines_cons, Hn, Hv. Qed.

(** A recognized definition on the last line of a file: [next(xml_file)]
    has no line to give. *)
Lemma definition_on_last_line (P : gmap string string) (f line n : string)
    (pd : occurrences) (out : console) :
  recognized P line = Some n →
  scan_lines P f [line] pd out = Raise StopIteration.
Proof. intros Hn. by rewrite scan_lines_cons, Hn. Qed.

(** C8 does not hold of the code when the definition is the last line of its
    file: the scan raises [StopIteration] instead of discarding the
    candidate, and the files that follow are not scanned.  Here [a.arxml]
    ends with a definition of [Param] and [b.arxml], never read, holds a
    definition with its value. *)
Theorem definition_at_end_of_file_raises :
  search_for_param {["Param" := "1"]}
    [("cfg", [FileEntry "a.arxml" ["<AR>" +:+ nl; definition_line];
              FileEntry "b.arxml"
                [definition_line; "<VALUE>1</VALUE>" +:+ nl]])]
    []
  = Raise StopIteration.
Proof. vm_compute. reflexivity. Qed.

(** ** Rows of the spreadsheet *)

(** C9 does not hold of the code when the object-type cell is empty: the
    membership test on [None] raises [TypeError] and the extraction stops
    at that row, before the requirement that follows it. *)
Theorem empty_object_type_raises :
  extract_params_from_excel
    [Row CNone CNone [];
     Row (CStr "Requirement") (CStr "P shall be set to 5") []]
    []
  = Raise TypeError.
Proof. reflexivity. Qed.

(** With text in both cells no row raises: a row that is not a requirement
    changes nothing and prints nothing, a requirement that does not parse
    is reported and changes nothing. *)
Lemma fill_params_dict_text (ot text : string) (P : gmap string string)
    (out : console) :
  fill_params_dict (CStr ot) (CStr text) P out
  = if Py.contains "Requirement" ot then
      match get_param (Py.replace Py.newline Py.space text) with
      | Some res =>
          if decide (is_Some (P !! Py.strip (fst res))) then
            Ok (None, P,
                print (multiple_times_message (Py.strip (fst res))) out)
          else
            Ok (Some (Py.strip (fst res)), <[Py.strip (fst res) := snd res]> P,
                out)
      | None => Ok (None, P, print ("Could not match " +:+ text) out)
      end
    else Ok (None, P, out).
Proof.
  unfold fill_params_dict. simpl.
  destruct (Py.contains "Requirement" ot); [|done]. simpl.
  by destruct (get_param _).
Qed.

(** ** Duplicate requirement names *)

(** What [fill_params_dict] returns, by what the row does on its own. *)
Lemma fill_params_dict_cases (ot text : cell_value)
    (P : gmap string string) (out : console) :
  match fill_params_dict ot text ∅ [] with
  | Raise e => fill_params_dict ot text P out = Raise e
  | Ok (Some n, P1, _) =>
      ∃ v, P1 = {[n := v]}
           ∧ fill_params_dict ot text ∅ [] = Ok (Some n, {[n := v]}, [])
           ∧ fill_params_dict ot text P out
             = if decide (is_Some (P !! n))
               then Ok (None, P, print (multiple_times_message n) out)
               else Ok (Some n, <[n := v]> P, out)
  | Ok (None, _, o1) =>
      fill_params_dict ot text P out = Ok (None, P, out ++ o1)
  end.
Proof.
  destruct ot as [|ot|k]; try done.
  destruct text as [|text|k].
  - unfold fill_params_dict. simpl.
    destruct (Py.contains "Requirement" ot); simpl; [done|].
    by rewrite app_nil_r.
  - rewrite !fill_params_dict_text.
    destruct (Py.contains "Requirement" ot); [|by rewrite app_nil_r].
    destruct (get_param _) as [res|]; [|done].
    rewrite decide_False by (by intros [? ?%lookup_empty_Some]).
    exists (snd res). by rewrite insert_empty.
  - unfold fill_params_dict. simpl.
    destruct (Py.contains "Requirement" ot); simpl; [done|].
    by rewrite app_nil_r.
Qed.

Lemma defines_fill (r : row) (n v : string) (P : gmap string string)
    (out : console) :
  defines r n v →
  fill_params_dict (object_type_cell r) (text_cell r) P out
  = if decide (is_Some (P !! n))
    then Ok (None, P, print (multiple_times_message n) out)
    else Ok (Some n, <[n := v]> P, out).
Proof.
  intros Hd. unfold defines in Hd.
  pose proof (fill_params_dict_cases (object_type_cell r) (text_cell r) P out)
    as H.
  rewrite Hd in H. destruct H as (v' & Hv & _ & H).
  apply (f_equal (.!! n)) in Hv. rewrite !lookup_singleton_eq in Hv.
  by injection Hv as <-.
Qed.

(** A stored value stays: no call of [fill_params_dict] overwrites it, and
    the console only grows. *)
Lemma fill_params_dict_keeps (ot text : cell_value)
    (P P' : gmap string string) (out out' : console) (x : option string)
    (n v : string) :
  fill_params_dict ot text P out = Ok (x, P', out') →
  (P !! n = Some v → P' !! n = Some v)
  ∧ (∀ msg, msg ∈ out → msg ∈ out').
Proof.
  intros Hf.
  pose proof (fill_params_dict_cases ot text P out) as H.
  destruct (fill_params_dict ot text ∅ []) as [[[[m|] P1] o1]|e].
  - destruct H as (v' & _ & _ & H). rewrite H in Hf.
    destruct (decide (is_Some (P !! m))) as [Hm|Hm];
      injection Hf as <- <- <-.
    + split; [done|]. intros msg Hmsg. unfold print. set_solver.
    + split; [|done]. intros Hn. rewrite lookup_insert_ne; [done|].
      intros ->. apply Hm. by rewrite Hn.
  - rewrite H in Hf. injection Hf as <- <- <-.
    split; [done|]. intros msg Hmsg. set_solver.
  - congruence.
Qed.

(** A name that is new after a call was registered by that call. *)
Lemma fill_params_dict_new (r : row) (P P' : gmap string string)
    (out out' : console) (x : option string) (n v : string) :
  fill_params_dict (object_type_cell r) (text_cell r) P out
  = Ok (x, P', out') →
  P !! n = None → P' !! n = Some v → defines r n v.
Proof.
  intros Hf Hn Hn'. unfold defines.
  pose proof (fill_params_dict_cases (object_type_cell r) (text_cell r) P out)
    as H.
  destruct (fill_params_dict _ _ ∅ []) as [[[[m|] P1] o1]|e].
  - destruct H as (v' & -> & H0 & H). rewrite H in Hf.
    destruct (decide (is_Some (P !! m))) as [Hm|Hm];
      injection Hf as <- <- <-; [congruence|].
    destruct (decide (m = n)) as [->|Hmn].
    + rewrite lookup_insert_eq in Hn'. by injection Hn' as ->.
    + rewrite lookup_insert_ne in Hn' by done. congruence.
  - rewrite H in Hf. injection Hf as <- <- <-. congruence.
  - congruence.
Qed.

Lemma readable_fill (r : row) (P : gmap string string) (out : console) :
  readable r →
  ∃ x P' out',
    fill_params_dict (object_type_cell r) (text_cell r) P out
    = Ok (x, P', out').
Proof.
  intros [y Hy].
  pose proof (fill_params_dict_cases (object_type_cell r) (text_cell r) P out)
    as H.
  rewrite Hy in H. destruct y as [[[m|] P1] o1].
  - destruct H as (v & _ & _ & ->). case_decide; eauto.
  - eauto.
Qed.

Lemma extract_rows_app (a b : list row) (P : gmap string string)
    (C : gmap string row) (out : console) :
  extract_rows (a ++ b) P C out
  = '(P1, C1, o1) ← extract_rows a P C out; extract_rows b P1 C1 o1.
Proof.
  revert P C out. induction a as [|r a IH]; intros P C out; simpl; [done|].
  destruct (fill_params_dict _ _ P out) as [[[x P1] o1]|e]; simpl; [|done].
  apply IH.
Qed.

Lemma extract_rows_readable (rows : list row) (P : gmap string string)
    (C : gmap string row) (out : console) :
  Forall readable rows →
  ∃ P' C' out', extract_rows rows P C out = Ok (P', C', out').
Proof.
  intros Hr. revert P C out.
  induction Hr as [|r rows Hr _ IH]; intros P C out; simpl; [eauto|].
  destruct (readable_fill r P out Hr) as (x & P1 & o1 & ->). simpl.
  apply IH.
Qed.

Lemma extract_rows_keeps (rows : list row) (P P' : gmap string string)
    (C C' : gmap string row) (out out' : console) (n v : string) :
  extract_rows rows P C out = Ok (P', C', out') →
  (P !! n = Some v → P' !! n = Some v)
  ∧ (∀ msg, msg ∈ out → msg ∈ out').
Proof.
  revert P C out. induction rows as [|r rows IH]; intros P C out; simpl.
  - by intros [= <- <- <-].
  - destruct (fill_params_dict _ _ P out) as [[[x P1] o1]|e] eqn:Hf;
      simpl; [|done].
    intros He. destruct (IH _ _ _ He) as [IH1 IH2].
    destruct (fill_params_dict_keeps _ _ _ _ _ _ _ n v Hf) as [H1 H2].
    split; auto.
Qed.

Lemma extract_rows_absent (rows : list row) (P P' : gmap string string)
    (C C' : gmap string row) (out out' : console) (n : string) :
  extract_rows rows P C out = Ok (P', C', out') →
  (∀ r v, r ∈ rows → ¬ defines r n v) →
  P !! n = None → P' !! n = None.
Proof.
  revert P C out. induction rows as [|r rows IH]; intros P C out; simpl.
  - by intros [= <- <- <-].
  - destruct (fill_params_dict _ _ P out) as [[[x P1] o1]|e] eqn:Hf;
      simpl; [|done].
    intros He Hno Hn. apply (IH _ _ _ He).
    + intros r' v Hr'. apply Hno. by right.
    + destruct (P1 !! n) as [v|] eqn:Hv; [|done].
      destruct (Hno r v); [left|].
      by apply (fill_params_dict_new r P P1 out o1 x).
Qed.

(** C7: when two rows of the sheet define the same parameter name, the
    table built by [extract_params_from_excel] holds the value of the first
    of them, and the warning about the name found several times has been
    printed for the later one; a value once stored is not overwritten by
    any later call of [fill_params_dict]. *)
Theorem first_requirement_wins
    (before_first between after : list row) (first second : row)
    (n v1 v2 : string) (out : console) :
  Forall readable (before_first ++ first :: between ++ second :: after) →
  (∀ r v, r ∈ before_first → ¬ defines r n v) →
  defines first n v1 → defines second n v2 →
  (∃ parameters parameters_cells out',
     extract_params_from_excel
       (before_first ++ first :: between ++ second :: after) out
     = Ok (parameters, parameters_cells, out')
     ∧ parameters !! n = Some v1
     ∧ multiple_times_message n ∈ out')
  ∧ ∀ object_type text parameters o x parameters' o' v,
      parameters !! n = Some v →
      fill_params_dict object_type text parameters o
      = Ok (x, parameters', o') →
      parameters' !! n = Some v.
Proof.
  intros Hread Hpre Hfirst Hsecond. split.
  2:{ intros ot text P o x P' o' v Hv Hf.
      by apply (fill_params_dict_keeps _ _ _ _ _ _ _ n v Hf). }
  unfold extract_params_from_excel.
  destruct (extract_rows_readable _ ∅ ∅ out Hread) as (P & C & o & He).
  rewrite He. simpl.
  exists P, C, (print ("Found " +:+ pretty (size P) +:+ " parameters") o).
  split; [done|].
  rewrite extract_rows_app in He.
  destruct (extract_rows before_first ∅ ∅ out) as [[[P1 C1] o1]|e] eqn:H1;
    simpl in He; [|done].
  assert (Hn1 : P1 !! n = None).
  { by apply (extract_rows_absent _ _ _ _ _ _ _ n H1). }
  rewrite (defines_fill first n v1 P1 o1 Hfirst) in He.
  rewrite decide_False in He by (rewrite Hn1; by intros [? ?]).
  simpl in He. rewrite extract_rows_app in He.
  match type of He with
  | context [extract_rows between ?P2 ?C2 ?o2] =>
      destruct (extract_rows between P2 C2 o2) as [[[P3 C3] o3]|e] eqn:H3
  end; simpl in He; [|done].
  assert (Hn3 : P3 !! n = Some v1).
  { apply (extract_rows_keeps _ _ _ _ _ _ _ n v1 H3), lookup_insert_eq. }
  rewrite (defines_fill second n v2 P3 o3 Hsecond) in He.
  rewrite decide_True in He by (by rewrite Hn3).
  simpl in He.
  destruct (extract_rows_keeps _ _ _ _ _ _ _ n v1 He) as [Hk Hmsg].
  split; [by apply Hk|].
  unfold print at 1. apply elem_of_app. left. apply Hmsg.
  unfold print. apply elem_of_app. right. by left.
Qed.

Lemma first_requirement_wins_witness :
  ∃ parameters parameters_cells out',
    extract_params_from_excel
      ([Row (CStr "Heading") (CStr "Timing") []]
       ++ Row (CStr "Requirement") (CStr "X shall be set to 5") []
       :: [] ++ Row (CStr "Requirement") (CStr "X shall be set to 6") []
       :: []) []
    = Ok (parameters, parameters_cells, out')
    ∧ parameters !! "X" = Some "5"
    ∧ multiple_times_message "X" ∈ out'.
Proof.
  apply (first_requirement_wins
           [Row (CStr "Heading") (CStr "Timing") []] [] []
           (Row (CStr "Requirement") (CStr "X shall be set to 5") [])
           (Row (CStr "Requirement") (CStr "X shall be set to 6") [])
           "X" "5" "6" []).
  - repeat constructor; eexists; vm_compute; reflexivity.
  - intros r v Hr. apply list_elem_of_In in Hr. simpl in Hr.
    destruct Hr as [<-|[]]. unfold defines. vm_compute. congruence.
  - unfold defines. vm_compute. reflexivity.
  - unfold defines. vm_compute. reflexivity.
Defined.

(** ** Order of the files *)

Lemma occs_empty (n : string) : occs ∅ n = [].
Proof. unfold occs. by rewrite lookup_empty. Qed.

Lemma occs_add (m : string) (d : list string) (T : occurrences) (n : string) :
  occs (add_occurrence m d T) n
  = occs T n ++ if decide (n = m) then [d] else [].
Proof.
  unfold occs, add_occurrence.
  destruct (T !! m) as [found|] eqn:Hm;
    (destruct (decide (n = m)) as [->|Hn];
     [rewrite lookup_insert_eq, ?Hm; done
     |rewrite lookup_insert_ne by done; by rewrite app_nil_r]).
Qed.

(** Scanning a file adds to the table what the file records on its own, and
    raises exactly when the file on its own does. *)
Lemma scan_lines_occs (P : gmap string string) (f : string)
    (ls : list string) :
  ∀ pd out,
    match scan_lines P f ls ∅ [] with
    | Ok (T1, o1) =>
        ∃ pd', scan_lines P f ls pd out = Ok (pd', out ++ o1)
               ∧ ∀ n, occs pd' n = occs pd n ++ occs T1 n
    | Raise e => scan_lines P f ls pd out = Raise e
    end.
Proof.
  induction ls as [|line rest IH1 IH2] using lines_ind; intros pd out.
  - simpl. exists pd. split; [by rewrite app_nil_r|].
    intros n. by rewrite occs_empty, app_nil_r.
  - rewrite !scan_lines_cons.
    destruct (recognized P line) as [m|]; [|apply IH1].
    destruct rest as [|next_line rest']; [done|].
    destruct (value_pattern (Py.strip next_line)) as [v|].
    + pose proof (IH2 _ _ eq_refl (add_occurrence m [f; Py.strip line; v] ∅)
                    []) as HA.
      pose proof (IH2 _ _ eq_refl (add_occurrence m [f; Py.strip line; v] pd)
                    out) as HB.
      destruct (scan_lines P f rest' ∅ []) as [[T1 o1]|e].
      * destruct HA as (pdA & -> & HA), HB as (pdB & -> & HB). simpl.
        exists pdB. split; [done|]. intros n.
        rewrite HB, HA, !occs_add, occs_empty. simpl.
        by rewrite !app_assoc.
      * by rewrite HA, HB.
    + pose proof (IH2 _ _ eq_refl ∅
                    (print (discarding_message m line f) [])) as HA.
      pose proof (IH2 _ _ eq_refl pd
                    (print (discarding_message m line f) out)) as HB.
      destruct (scan_lines P f rest' ∅ []) as [[T1 o1]|e].
      * destruct HA as (pdA & -> & HA), HB as (pdB & -> & HB).
        exists pdB. split; [unfold print; by rewrite <- app_assoc|].
        intros n.
        by rewrite HB, HA, occs_empty.
      * by rewrite HA, HB.
Qed.

Lemma scan_files_occs (P : gmap string string)
    (files : list (string * list string)) :
  ∀ pd out,
    match scan_files P files pd out with
    | Ok (pd', _) =>
        Forall (file_ok P) files
        ∧ ∀ n, occs pd' n
               = occs pd n ++ concat ((λ file, file_occs P file n) <$> files)
    | Raise _ => ¬ Forall (file_ok P) files
    end.
Proof.
  induction files as [|[f ls] files IH]; intros pd out; simpl.
  - split; [done|]. intros n. by rewrite app_nil_r.
  - pose proof (scan_lines_occs P f ls pd
                  (print ("analysing file " +:+ f +:+ " ...") out)) as H.
    destruct (scan_lines P f ls ∅ []) as [[T1 o1]|e] eqn:H1.
    + destruct H as (pd1 & -> & Hocc). simpl.
      specialize (IH pd1 (print ("analysing file " +:+ f +:+ " ...") out
                          ++ o1)).
      destruct (scan_files P files pd1 _) as [[pd' out']|e'].
      * destruct IH as [Hok IH]. split.
        -- constructor; [|done]. unfold file_ok. simpl. eauto.
        -- intros n. rewrite IH, Hocc, <- app_assoc.
           unfold file_occs at 2. simpl. by rewrite H1.
      * intros Hall. apply IH. by inversion Hall.
    + rewrite H. simpl. intros Hall. inversion Hall as [|? ? [x Hx] ?]; subst.
      simpl in Hx. congruence.
Qed.

Lemma scanned_lookup_perm (P : gmap string string) (T T' : occurrences) :
  scanned P T → scanned P T' →
  (∀ n, occs T n ≡ₚ occs T' n) →
  ∀ n, option_Forall2 (≡ₚ) (T !! n) (T' !! n).
Proof.
  intros HT HT' Hp n. specialize (Hp n). unfold occs in Hp.
  destruct (T !! n) as [l|] eqn:Hl, (T' !! n) as [l'|] eqn:Hl';
    simpl in Hp.
  - by constructor.
  - destruct (HT n l Hl) as (_ & Hne & _).
    by apply Permutation_nil_r in Hp.
  - destruct (HT' n l' Hl') as (_ & Hne & _).
    by apply Permutation_nil_l in Hp.
  - constructor.
Qed.

(** Visiting the files in another order reorders the occurrences of each
    name and changes nothing else; the scan raises for one order exactly
    when it raises for the other. *)
Lemma scan_files_perm (P : gmap string string)
    (files files' : list (string * list string)) (out out' : console) :
  files ≡ₚ files' →
  match scan_files P files ∅ out, scan_files P files' ∅ out' with
  | Ok (T, _), Ok (T', _) =>
      scanned P T ∧ scanned P T'
      ∧ ∀ n, option_Forall2 (≡ₚ) (T !! n) (T' !! n)
  | Raise e, Raise e' => e = e'
  | _, _ => False
  end.
Proof.
  intros Hp.
  assert (He : scanned P ∅).
  { intros n l Hn. by apply lookup_empty_Some in Hn. }
  pose proof (scan_files_occs P files ∅ out) as H1.
  pose proof (scan_files_occs P files' ∅ out') as H2.
  pose proof (scan_files_scanned P files ∅ out He) as S1.
  pose proof (scan_files_scanned P files' ∅ out' He) as S2.
  destruct (scan_files P files ∅ out) as [[T o]|e],
           (scan_files P files' ∅ out') as [[T' o']|e'].
  - destruct H1 as [_ H1], H2 as [_ H2].
    split; [done|]. split; [done|].
    apply (scanned_lookup_perm P); [done..|].
    intros n. rewrite H1, H2. by rewrite Hp.
  - destruct H1 as [H1 _]. apply H2. by rewrite <- Hp.
  - destruct H2 as [H2 _]. apply H1. by rewrite Hp.
  - congruence.
Qed.

Lemma same_outcome_classification (T T' : occurrences)
    (r r' : result (buckets * console)) :
  same_outcome T T' r r' → same_classification T T' r r'.
Proof.
  destruct r as [[b o]|e], r' as [[b' o']|e']; simpl; try done.
  intros Hb. repeat split; try done.
  - apply (same_buckets_dom T T' b b' AGREED Hb).
  - apply (same_buckets_dom T T' b b' NOT_FOUND Hb).
  - apply (same_buckets_dom T T' b b' AMBIGUOUS Hb).
  - apply (same_buckets_dom T T' b b' MISMATCHED Hb).
Qed.

(** ** The claim on the order of the files *)

(** C5: reordering the occurrences of each parameter never changes the
    dictionary a parameter is filed under: the two runs of [compute_params]
    return the same four sets of names, or raise the same exception, and
    the entries differ at most in the order in which [actual_value] and
    [found_in] list the occurrences.  Visiting the configuration files in
    another order is such a reordering: the two scans raise together or
    return tables whose lists are permutations of each other, and the
    classification that follows returns and is the same. *)
Theorem file_order_keeps_buckets (parameters : gmap string string) :
  (∀ (T T' : occurrences) (out out' : console),
     (∀ n, option_Forall2 (≡ₚ) (T !! n) (T' !! n)) →
     same_classification T T'
       (compute_params parameters T out) (compute_params parameters T' out'))
  ∧ (∀ (search_path search_path' : walk) (out out' : console),
       find_arxml_files search_path ≡ₚ find_arxml_files search_path' →
       match search_for_param parameters search_path out,
             search_for_param parameters search_path' out' with
       | Ok (T, o), Ok (T', o') =>
           (∀ n, option_Forall2 (≡ₚ) (T !! n) (T' !! n))
           ∧ (∃ x, compute_params parameters T o = Ok x)
           ∧ same_classification T T'
               (compute_params parameters T o)
               (compute_params parameters T' o')
       | Raise e, Raise e' => e = e'
       | _, _ => False
       end).
Proof.
  split.
  - intros T T' out out' HT.
    by apply same_outcome_classification, same_outcome_compute_params.
  - intros w w' out out' Hp. unfold search_for_param.
    pose proof (scan_files_perm parameters _ _ out out' Hp) as H.
    destruct (scan_files parameters (find_arxml_files w) ∅ out)
      as [[T o]|e],
      (scan_files parameters (find_arxml_files w') ∅ out')
      as [[T' o']|e']; try done.
    destruct H as (HT & HT' & Hperm). split; [done|]. split.
    + destruct (compute_params_returns parameters T o) as (b & o1 & Hb);
        [|eauto].
      intros n _ l Hl. destruct (HT n l Hl) as (_ & Hne & Hall).
      split; [by apply triple_complete | done].
    + by apply same_outcome_classification, same_outcome_compute_params.
Qed.

Lemma file_order_keeps_buckets_witness :
  same_classification
    {["P" := [["a.arxml"; "l1"; "10"]; ["b.arxml"; "l2"; "10 "]]]}
    {["P" := [["b.arxml"; "l2"; "10 "]; ["a.arxml"; "l1"; "10"]]]}
    (compute_params {["P" := "10"; "Q" := "1"]}
       {["P" := [["a.arxml"; "l1"; "10"]; ["b.arxml"; "l2"; "10 "]]]} [])
    (compute_params {["P" := "10"; "Q" := "1"]}
       {["P" := [["b.arxml"; "l2"; "10 "]; ["a.arxml"; "l1"; "10"]]]} []).
Proof.
  apply (proj1 (file_order_keeps_buckets {["P" := "10"; "Q" := "1"]})).
  intros n. destruct (decide (n = "P")) as [->|Hn].
  - rewrite !lookup_singleton_eq. constructor. apply perm_swap.
  - rewrite !lookup_singleton_ne by done. constructor.
Defined.

(** The display strings do follow the order of the occurrences. *)
Example found_in_follows_order :
  found_fields [["a.arxml"; "l1"; "10"]; ["b.arxml"; "l2"; "10"]]
  ≠ found_fields [["b.arxml"; "l2"; "10"]; ["a.arxml"; "l1"; "10"]].
Proof. vm_compute. congruence. Qed.

(** ** The requirement parser *)

Lemma length_append (a b : string) :
  String.length (a +:+ b) = (String.length a + String.length b)%nat.
Proof.
  induction a as [|x a IH]; [done|]. rewrite append_cons. simpl. by rewrite IH.
Qed.

Lemma dots_append (a b : string) : dots (a +:+ b) = dots a && dots b.
Proof.
  induction a as [|x a IH]; [done|]. rewrite append_cons. simpl.
  rewrite IH. by destruct (Re.dot x).
Qed.

Lemma dots_replace (text : string) :
  dots (Py.replace Py.newline Py.space text) = true.
Proof.
  induction text as [|c text IH]; [done|]. simpl. rewrite IH.
  destruct (Ascii.eqb c Py.newline) eqn:Hc; [done|].
  unfold Re.dot. by rewrite Hc.
Qed.

Lemma strip_prefix_Some (p s r : string) :
  Py.strip_prefix p s = Some r ↔ s = p +:+ r.
Proof.
  revert s. induction p as [|a p IH]; intros s; simpl.
  - rewrite append_nil. split; congruence.
  - rewrite append_cons. destruct s as [|b s]; [done|].
    destruct (Ascii.eqb_spec a b) as [->|Hab].
    + rewrite IH. split; [by intros ->|by intros [= ->]].
    + split; [done|]. by intros [= -> _].
Qed.

Lemma contains_decompose (sub s : string) :
  Py.contains sub s = true ↔ ∃ a b, s = a +:+ sub +:+ b.
Proof.
  induction s as [|c s IH]; simpl.
  - rewrite orb_false_r. unfold Py.startswith. split.
    + destruct (Py.strip_prefix sub "") as [r|] eqn:Hr; [|done].
      apply strip_prefix_Some in Hr. intros _. by exists "", r.
    + intros (a & b & Hab). destruct a as [|x a]; [|done].
      rewrite append_nil in Hab. apply strip_prefix_Some in Hab.
      by rewrite Hab.
  - rewrite orb_true_iff, IH. unfold Py.startswith. split.
    + intros [H|(a & b & ->)].
      * destruct (Py.strip_prefix sub (String c s)) as [r|] eqn:Hr; [|done].
        apply strip_prefix_Some in Hr. by exists "", r.
      * by exists (String c a), b.
    + intros (a & b & Hab). destruct a as [|x a].
      * left. rewrite append_nil in Hab. apply strip_prefix_Some in Hab.
        by rewrite Hab.
      * right. rewrite append_cons in Hab. injection Hab as -> ->. eauto.
Qed.

(** What a greedy [.*] followed by [k] returns is a way to cut the input. *)
Lemma dot_star_sound {B} (k : string → option B) (s g : string) (b : B) :
  Re.dot_star k s = Some (g, b) →
  ∃ r, s = g +:+ r ∧ dots g = true ∧ k r = Some b.
Proof.
  revert g. induction s as [|c s IH]; intros g; simpl.
  - destruct (k "") as [b'|] eqn:Hk; simpl; [|done].
    intros [= <- <-]. by exists "".
  - assert (Hstop : pair "" <$> k (String c s) = Some (g, b) →
              ∃ r, String c s = g +:+ r ∧ dots g = true ∧ k r = Some b).
    { destruct (k (String c s)) as [b'|] eqn:Hk; simpl; [|done].
      intros [= <- <-]. by exists (String c s). }
    destruct (Re.dot c) eqn:Hc; [|done].
    destruct (Re.dot_star k s) as [[g' b']|]; [|done].
    intros [= <- <-]. destruct (IH g' eq_refl) as (r & -> & Hg & Hk).
    exists r. simpl. by rewrite Hc, Hg.
Qed.

(** It returns whenever there is a way to cut the input, and no way leaves
    more characters to [.*] than the one returned. *)
Lemma dot_star_greedy {B} (k : string → option B) (s g' r' : string) :
  s = g' +:+ r' → dots g' = true → is_Some (k r') →
  ∃ g b, Re.dot_star k s = Some (g, b)
         ∧ (String.length g' ≤ String.length g)%nat.
Proof.
  revert g'. induction s as [|c s IH]; intros g' Hs Hg Hk.
  - destruct g' as [|x g']; [|done]. rewrite append_nil in Hs. subst r'.
    destruct Hk as [b Hb]. exists "", b. simpl. by rewrite Hb.
  - destruct g' as [|x g'].
    + rewrite append_nil in Hs. subst r'. destruct Hk as [b Hb]. simpl.
      destruct (Re.dot c); [|exists "", b; by rewrite Hb].
      destruct (Re.dot_star k s) as [[g0 b0]|].
      * exists (String c g0), b0. split; [done|]. simpl. lia.
      * exists "", b. by rewrite Hb.
    + rewrite append_cons in Hs. injection Hs as <- ->.
      simpl in Hg. apply andb_prop in Hg as [Hx Hg].
      destruct (IH g' eq_refl Hg Hk) as (g0 & b0 & H0 & Hlen).
      exists (String c g0), b0. simpl. rewrite Hx, H0. split; [done|].
      simpl. lia.
Qed.


Lemma get_param_dot_star (line : string) :
  get_param line = Re.dot_star after_path line.
Proof. reflexivity. Qed.

Lemma after_path_Some (r value : string) :
  after_path r = Some value →
  ∃ c g w rest,
    r = keyword +:+ String c (g +:+ String w rest)
    ∧ Re.dot c = true ∧ dots g = true ∧ Py.is_word w = true
    ∧ value = g +:+ String w ""
    ∧ ∀ g' w' rest',
        g +:+ String w rest = g' +:+ String w' rest' →
        dots g' = true → Py.is_word w' = true →
        (String.length g' ≤ String.length g)%nat.
Proof.
  unfold after_path.
  destruct (Py.strip_prefix keyword r) as [r1|] eqn:H1; simpl; [|done].
  apply strip_prefix_Some in H1 as ->.
  destruct r1 as [|c r2]; simpl; [done|].
  destruct (Re.dot c) eqn:Hc; simpl; [|done].
  destruct (Re.dot_star Re.word_char r2) as [[g w]|] eqn:H2; simpl; [|done].
  intros [= <-].
  destruct (dot_star_sound _ _ _ _ H2) as (r3 & -> & Hg & Hw).
  destruct r3 as [|w0 rest]; simpl in Hw; [done|].
  destruct (Py.is_word w0) eqn:Hw0; [|done]. injection Hw as ->.
  exists c, g, w, rest. repeat split; try done.
  intros g' w' rest' Heq Hg' Hw'.
  destruct (dot_star_greedy Re.word_char _ g' (String w' rest') Heq Hg')
    as (g0 & b0 & H0 & Hlen).
  { simpl. rewrite Hw'. eauto. }
  rewrite H2 in H0. by injection H0 as <- <-.
Qed.


Lemma dots_parts (path v rest : string) (c w : ascii) :
  dots (path +:+ keyword +:+ String c (v +:+ String w rest)) = true →
  dots path = true ∧ Re.dot c = true ∧ dots v = true ∧ Re.dot w = true
  ∧ dots rest = true.
Proof.
  rewrite !dots_append.
  change (dots (String c (v +:+ String w rest)))
    with (Re.dot c && dots (v +:+ String w rest)).
  rewrite dots_append.
  change (dots (String w rest)) with (Re.dot w && dots rest).
  rewrite !andb_true_iff. tauto.
Qed.




(** * Further properties of the code *)

(** ** Short names in the scanner *)

Lemma split_no_sep (sep : ascii) (s : string) :
  Forall (λ x, has_char sep x = false) (Py.split sep s).
Proof.
  induction s as [|c s IH]; simpl; [by repeat constructor|].
  destruct (Ascii.eqb c sep) eqn:Hc; [by constructor|].
  destruct (Py.split sep s) as [|f fs].
  { repeat constructor. simpl. by rewrite Hc. }
  inversion IH as [|? ? Hf Hfs]; subst.
  constructor; [|done]. simpl. by rewrite Hc, Hf.
Qed.

Lemma last_elem (l : list string) (x : string) : Py.last l = Ok x → x ∈ l.
Proof.
  induction l as [|a [|b l] IH]; [done| |].
  - intros [= ->]. by left.
  - intros H. right. by apply IH.
Qed.

Lemma recognized_no_slash (P : gmap string string) (line n : string) :
  recognized P line = Some n → has_char Py.slash n = false.
Proof.
  unfold recognized. destruct (Py.contains _ line); [|done].
  destruct (param_pattern line) as [g|]; [|done].
  destruct (Py.last _) as [m|] eqn:Hm; [|done].
  destruct (decide (is_Some (P !! m))); [|done]. intros [= <-].
  apply last_elem in Hm.
  by apply (proj1 (Forall_forall _ _) (split_no_sep Py.slash g)).
Qed.

Lemma short_keys_add (T : occurrences) (n : string) (d : list string) :
  has_char Py.slash n = false → short_keys T →
  short_keys (add_occurrence n d T).
Proof.
  intros Hn HT m. unfold add_occurrence.
  destruct (T !! n) as [found|];
    (destruct (decide (m = n)) as [->|Hm];
     [done | rewrite lookup_insert_ne by done; apply HT]).
Qed.

Lemma scan_lines_short_keys (P : gmap string string) (f : string)
    (ls : list string) :
  ∀ pd out pd' out',
    short_keys pd → scan_lines P f ls pd out = Ok (pd', out') →
    short_keys pd'.
Proof.
  induction ls as [|line rest IH1 IH2] using lines_ind;
    intros pd out pd' out' Hpd.
  - by intros [= <- <-].
  - rewrite scan_lines_cons.
    destruct (recognized P line) as [n|] eqn:Hn; [|by apply IH1].
    destruct rest as [|next_line rest']; [done|].
    destruct (value_pattern (Py.strip next_line)) as [v|].
    + apply (IH2 _ _ eq_refl).
      apply short_keys_add; [|done]. by apply (recognized_no_slash P line).
    + by apply (IH2 _ _ eq_refl).
Qed.

Lemma scan_files_short_keys (P : gmap string string)
    (files : list (string * list string)) :
  ∀ pd out pd' out',
    short_keys pd → scan_files P files pd out = Ok (pd', out') →
    short_keys pd'.
Proof.
  induction files as [|[f ls] files IH]; intros pd out pd' out' Hpd; simpl.
  - by intros [= <- <-].
  - destruct (scan_lines P f ls pd _) as [[pd1 out1]|e] eqn:H1; simpl; [|done].
    apply IH. by apply (scan_lines_short_keys _ _ _ _ _ _ _ Hpd H1).
Qed.

(** The scanner files an occurrence under the last segment of the path it
    reads, so no key of its table holds a slash.  An expected parameter
    whose name is a path with a slash (the requirement text is taken as it
    is written) therefore has no entry, whatever the files hold, and the
    classification that follows files it under [nothing_found_container]. *)
Theorem path_named_parameter_never_found
    (parameters : gmap string string) (search_path : walk)
    (out out' : console) (param_data : occurrences)
    (param_name param_expected_value : string) :
  search_for_param parameters search_path out = Ok (param_data, out') →
  parameters !! param_name = Some param_expected_value →
  has_char Py.slash param_name = true →
  param_data !! param_name = None
  ∧ ∃ b out'',
      compute_params parameters param_data out' = Ok (b, out'')
      ∧ nothing_found_container b !! param_name
        = Some {| name := param_name;
                  expected_value := param_expected_value;
                  actual_value := "not found";
                  found_in := "not found" |}.
Proof.
  intros Hs HP Hn. unfold search_for_param in Hs.
  assert (He : short_keys ∅) by (by intros n [? ?%lookup_empty_Some]).
  pose proof (scan_files_short_keys _ _ _ _ _ _ He Hs) as Hk.
  assert (HT : param_data !! param_name = None).
  { destruct (param_data !! param_name) as [l|] eqn:Hl; [|done].
    specialize (Hk param_name). rewrite Hl in Hk.
    rewrite Hk in Hn by eauto. done. }
  split; [done|].
  pose proof (scan_files_scanned parameters (find_arxml_files search_path)
                ∅ out) as Hsc.
  rewrite Hs in Hsc.
  destruct (compute_params_returns parameters param_data out')
    as (b & out'' & Hb).
  { intros n _ l Hl.
    destruct (Hsc (λ n l Hn, False_ind _ (lookup_empty_Some _ _ Hn)) n l Hl)
      as (_ & Hne & Hall).
    split; [by apply triple_complete | done]. }
  exists b, out''. split; [done|].
  destruct (compute_params_lookup _ _ _ _ _ Hb) as [_ Hl].
  pose proof (Hl NOT_FOUND param_name) as Hv.
  rewrite HP in Hv. simpl in Hv. unfold entry in Hv. rewrite HT in Hv.
  exact Hv.
Qed.

Lemma path_named_parameter_never_found_witness :
  ({["Param" :=
       [["cfg/a.arxml"; "<DEFINITION-REF DEST=x>/A/B/Param</DEFINITION-REF>";
         "10 MS"]]]} : occurrences) !! "A/B/Param" = None
  ∧ ∃ b out'',
      compute_params {["A/B/Param" := "10"; "Param" := "10 ms"]}
        {["Param" :=
            [["cfg/a.arxml";
              "<DEFINITION-REF DEST=x>/A/B/Param</DEFINITION-REF>";
              "10 MS"]]]}
        ["analysing file cfg/a.arxml ..."] = Ok (b, out'')
      ∧ nothing_found_container b !! "A/B/Param"
        = Some {| name := "A/B/Param"; expected_value := "10";
                  actual_value := "not found"; found_in := "not found" |}.
Proof.
  apply (path_named_parameter_never_found
           {["A/B/Param" := "10"; "Param" := "10 ms"]} sample_tree []
           ["analysing file cfg/a.arxml ..."]
           {["Param" :=
               [["cfg/a.arxml";
                 "<DEFINITION-REF DEST=x>/A/B/Param</DEFINITION-REF>";
                 "10 MS"]]]}
           "A/B/Param" "10").
  - vm_compute. reflexivity.
  - vm_compute. reflexivity.
  - reflexivity.
Defined.

(** ** Scanning one tree after another *)

Lemma scan_files_app (P : gmap string string)
    (a b : list (string * list string)) (pd : occurrences) (out : console) :
  scan_files P (a ++ b) pd out
  = '(pd1, o1) ← scan_files P a pd out; scan_files P b pd1 o1.
Proof.
  revert pd out. induction a as [|[f ls] a IH]; intros pd out; simpl; [done|].
  destruct (scan_lines P f ls pd _) as [[pd1 o1]|e]; simpl; [|done].
  apply IH.
Qed.

(** Scanning files adds to the table, name by name, what the same files
    record when scanned from an empty table, and to the console what they
    print; it raises exactly when they do. *)
Lemma scan_files_add (P : gmap string string)
    (files : list (string * list string)) :
  ∀ pd out,
    match scan_files P files ∅ [] with
    | Ok (T1, o1) =>
        ∃ pd', scan_files P files pd out = Ok (pd', out ++ o1)
               ∧ ∀ n, occs pd' n = occs pd n ++ occs T1 n
    | Raise e => scan_files P files pd out = Raise e
    end.
Proof.
  induction files as [|[f ls] files IH]; intros pd out; simpl.
  - exists pd. split; [by rewrite app_nil_r|].
    intros n. by rewrite occs_empty, app_nil_r.
  - pose proof (scan_lines_occs P f ls ∅
                  (print ("analysing file " +:+ f +:+ " ...") [])) as HA.
    pose proof (scan_lines_occs P f ls pd
                  (print ("analysing file " +:+ f +:+ " ...") out)) as HB.
    destruct (scan_lines P f ls ∅ []) as [[T0 o0]|e].
    2:{ by rewrite HA, HB. }
    destruct HA as (pdA & -> & HA), HB as (pdB & -> & HB). simpl.
    pose proof (IH pdA (("analysing file " +:+ f +:+ " ...") :: o0)) as IA.
    pose proof (IH pdB (print ("analysing file " +:+ f +:+ " ...") out ++ o0))
      as IB.
    destruct (scan_files P files ∅ []) as [[T1 o1]|e].
    2:{ by rewrite IA, IB. }
    destruct IA as (pdA' & -> & IA), IB as (pdB' & -> & IB).
    exists pdB'. split.
    + unfold print. by rewrite <- !app_assoc.
    + intros n. rewrite IB, IA, HB, HA, occs_empty. simpl.
      by rewrite !app_assoc.
Qed.

(** Scanning two trees one after the other records, under each name, the
    occurrences of the first tree followed by those of the second, and
    prints what each scan prints; it raises [StopIteration] when either
    scan does. *)
Theorem search_for_param_app
    (parameters : gmap string string) (tree1 tree2 : walk) (out : console) :
  match search_for_param parameters tree1 out,
        search_for_param parameters tree2 [] with
  | Ok (T1, o1), Ok (T2, o2) =>
      ∃ T, search_for_param parameters (tree1 ++ tree2) out
           = Ok (T, o1 ++ o2)
           ∧ ∀ n, default [] (T !! n)
                  = default [] (T1 !! n) ++ default [] (T2 !! n)
  | _, _ =>
      search_for_param parameters (tree1 ++ tree2) out = Raise StopIteration
  end.
Proof.
  unfold search_for_param, find_arxml_files.
  rewrite bind_app, scan_files_app.
  fold (find_arxml_files tree1) (find_arxml_files tree2).
  assert (He : scanned parameters ∅).
  { intros n l Hn. by apply lookup_empty_Some in Hn. }
  pose proof (scan_files_scanned parameters (find_arxml_files tree1) ∅ out He)
    as S1.
  pose proof (scan_files_scanned parameters (find_arxml_files tree2) ∅ [] He)
    as S2.
  destruct (scan_files parameters (find_arxml_files tree1) ∅ out)
    as [[T1 o1]|e1]; simpl.
  2:{ by rewrite S1. }
  pose proof (scan_files_add parameters (find_arxml_files tree2) T1 o1) as H.
  destruct (scan_files parameters (find_arxml_files tree2) ∅ [])
    as [[T2 o2]|e2].
  - destruct H as (T & -> & HT). by exists T.
  - by rewrite H, S2.
Qed.

(** ** No expected parameter *)

Lemma scan_lines_nothing_expected (f : string) (ls : list string)
    (pd : occurrences) (out : console) :
  scan_lines ∅ f ls pd out = Ok (pd, out).
Proof.
  induction ls as [|line rest IH1 _] using lines_ind; [done|].
  rewrite scan_lines_cons.
  assert (recognized ∅ line = None) as ->; [|done].
  destruct (recognized ∅ line) as [n|] eqn:Hn; [|done].
  by apply recognized_expected in Hn as [? ?%lookup_empty_Some].
Qed.

(** With no expected parameter the scan of files that open and decode
    reads every configuration file, announces each, records nothing and
    does not raise, whatever the lines of the files are: no line is
    recognized, so no line is asked for beyond the last. *)
Theorem search_for_nothing (search_path : walk) (out : console) :
  search_for_param ∅ search_path out
  = Ok (∅,
        out ++ ((λ file, "analysing file " +:+ fst file +:+ " ...")
                <$> find_arxml_files search_path)).
Proof.
  unfold search_for_param. generalize (find_arxml_files search_path).
  intros files. revert out.
  induction files as [|[f ls] files IH]; intros out; simpl.
  - by rewrite app_nil_r.
  - rewrite scan_lines_nothing_expected. simpl. rewrite IH.
    unfold print. by rewrite <- app_assoc.
Qed.

(** ** The two patterns of the scanner *)

Lemma append_inj_length (a b r r' : string) :
  a +:+ r = b +:+ r' → String.length a = String.length b → a = b.
Proof.
  revert b. induction a as [|x a IH]; intros [|y b]; try done.
  rewrite !append_cons. intros [= -> H] [= Hl]. f_equal. by apply IH.
Qed.

(** A greedy [.*] followed by a literal takes exactly [g] from [g], the
    literal and nothing more. *)
Lemma dot_star_literal (lit g : string) :
  dots g = true →
  Re.dot_star (Py.strip_prefix lit) (g +:+ lit) = Some (g, "").
Proof.
  intros Hg.
  destruct (dot_star_greedy (Py.strip_prefix lit) (g +:+ lit) g lit eq_refl Hg)
    as (g' & b & Hd & Hlen).
  { exists "". apply strip_prefix_Some. by rewrite append_empty_r. }
  destruct (dot_star_sound _ _ _ _ Hd) as (r & Hr & _ & Hb).
  apply strip_prefix_Some in Hb. subst r.
  assert (Hl : String.length (g +:+ lit) = String.length (g' +:+ lit +:+ b))
    by by rewrite <- Hr.
  rewrite !length_append in Hl.
  assert (String.length b = 0%nat ∧ String.length g' = String.length g)
    as [Hb0 Hg'] by lia.
  destruct b; [|done].
  rewrite (append_inj_length g' g _ _ (eq_sym Hr) Hg') in Hd. done.
Qed.

(** A pattern made of an opening literal, a group with a greedy [.*] and a
    closing literal, anchored at the start. *)
Lemma wrapped_pattern (opening closing s : string) :
  (∀ g, (r ← Py.strip_prefix opening s;
         fst <$> Re.dot_star (Py.strip_prefix closing) r) = Some g →
     dots g = true ∧ ∃ rest, s = opening +:+ g +:+ closing +:+ rest)
  ∧ ∀ g, dots g = true →
      (r ← Py.strip_prefix opening (opening +:+ g +:+ closing);
       fst <$> Re.dot_star (Py.strip_prefix closing) r) = Some g.
Proof.
  split.
  - intros g.
    destruct (Py.strip_prefix opening s) as [r|] eqn:Hr; simpl; [|done].
    apply strip_prefix_Some in Hr as ->.
    destruct (Re.dot_star _ r) as [[g' b]|] eqn:Hd; simpl; [|done].
    intros [= <-].
    destruct (dot_star_sound _ _ _ _ Hd) as (r' & -> & Hg & Hb).
    apply strip_prefix_Some in Hb as ->. split; [done|]. by exists b.
  - intros g Hg.
    rewrite (proj2 (strip_prefix_Some opening _ _) eq_refl). simpl.
    by rewrite dot_star_literal.
Qed.

(** What [value_pattern] extracts stands between the opening tag at the
    start of the line and a closing tag, on one line; and a value wrapped in
    the two tags is extracted as it is, whatever it holds but a line
    feed. *)
Theorem value_pattern_wrapped (s : string) :
  (∀ value, value_pattern s = Some value →
     dots value = true
     ∧ ∃ rest, s = "<VALUE>" +:+ value +:+ "</VALUE>" +:+ rest)
  ∧ ∀ value, dots value = true →
      value_pattern ("<VALUE>" +:+ value +:+ "</VALUE>") = Some value.
Proof. exact (wrapped_pattern "<VALUE>" "</VALUE>" s). Qed.

Lemma value_pattern_wrapped_witness :
  value_pattern ("<VALUE>" +:+ "10 ms</VALUE>x" +:+ "</VALUE>")
  = Some "10 ms</VALUE>x".
Proof.
  apply (proj2 (value_pattern_wrapped "")). reflexivity.
Defined.

Lemma append_prefix (a a' r r' : string) :
  a +:+ r = a' +:+ r' → (String.length a ≤ String.length a')%nat →
  ∃ h, a' = a +:+ h ∧ r = h +:+ r'.
Proof.
  revert a'. induction a as [|x a IH]; intros a' He Hl.
  - exists a'. by rewrite !append_nil in *.
  - destruct a' as [|y a']; [simpl in Hl; lia|].
    rewrite !append_cons in He. injection He as -> He. simpl in Hl.
    destruct (IH a' He) as (h & -> & ->); [lia|]. by exists h.
Qed.

(** [search] passes over a prefix in which the pattern cannot start. *)
Lemma search_skip {B} (p : string → option B) (c0 : ascii) (pre s : string) :
  (∀ c r, c ≠ c0 → p (String c r) = None) →
  has_char c0 pre = false →
  Re.search p (pre +:+ String c0 s) = Re.search p (String c0 s).
Proof.
  intros Hp. induction pre as [|x pre IH]; [done|].
  rewrite append_cons. intros Hx. simpl in Hx.
  apply orb_false_elim in Hx as [Hx Hpre].
  change (Re.search p (String x (pre +:+ String c0 s)))
    with (match p (String x (pre +:+ String c0 s)) with
          | Some b => Some b
          | None => Re.search p (pre +:+ String c0 s)
          end).
  rewrite Hp; [by apply IH|]. intros ->. by rewrite Ascii.eqb_refl in Hx.
Qed.

(** The group of [param_pattern] ends at the closing [</] after which no
    other follows. *)
Lemma dot_star_last_closing (g post : string) :
  dots g = true → Py.contains "</" post = false →
  fst <$> Re.dot_star (Py.strip_prefix "</") (g +:+ "</" +:+ post) = Some g.
Proof.
  intros Hg Hpost.
  destruct (dot_star_greedy (Py.strip_prefix "</") (g +:+ "</" +:+ post) g
              ("</" +:+ post) eq_refl Hg) as (g' & b & Hd & Hlen).
  { exists post. by apply strip_prefix_Some. }
  rewrite Hd. simpl. f_equal.
  destruct (dot_star_sound _ _ _ _ Hd) as (r & Hr & _ & Hb).
  apply strip_prefix_Some in Hb. subst r.
  destruct (append_prefix _ _ _ _ Hr Hlen) as (h & -> & Hh).
  destruct h as [|x [|y h]].
  - by rewrite append_empty_r.
  - by injection Hh.
  - rewrite !append_cons in Hh. injection Hh as <- <- Hh.
    assert (Py.contains "</" post = true); [|congruence].
    apply contains_decompose. by exists h, b.
Qed.

Lemma last_split_name (sep : ascii) (path name : string) :
  has_char sep name = false →
  path = "" ∨ (∃ p, path = p +:+ String sep "") →
  Py.last (Py.split sep (path +:+ name)) = Ok name.
Proof.
  intros Hn.
  assert (Hname : ∀ s, has_char sep s = false → Py.split sep s = [s]).
  { induction s as [|c s IH]; [done|]. simpl.
    intros [Hc Hs]%orb_false_elim. rewrite Hc, (IH Hs). done. }
  assert (Hrest : ∀ p, ∃ x l, Py.split sep (p +:+ String sep name) = x :: l
                              ∧ Py.last l = Ok name).
  { induction p as [|c p (x & l & Hx & Hl)].
    - rewrite append_nil. simpl. rewrite Ascii.eqb_refl, (Hname name Hn).
      by exists "", [name].
    - rewrite append_cons. simpl. rewrite Hx.
      destruct (Ascii.eqb c sep).
      + exists "", (x :: l). split; [done|]. by destruct l.
      + by exists (String c x), l. }
  intros [->|[p ->]].
  - by rewrite append_nil, (Hname name Hn).
  - rewrite append_assoc, append_cons, append_nil.
    destruct (Hrest p) as (x & l & -> & Hl). by destruct l.
Qed.

Lemma lstrip_padded (a s : string) :
  all_space a = true → Py.lstrip (a +:+ s) = Py.lstrip s.
Proof.
  induction a as [|c a IH]; [done|]. rewrite append_cons. simpl.
  intros [Hc Ha]%andb_prop. rewrite Hc. by apply IH.
Qed.

Lemma rstrip_spaces (b : string) : all_space b = true → Py.rstrip b = "".
Proof.
  induction b as [|c b IH]; [done|]. simpl.
  intros [Hc Hb]%andb_prop. by rewrite (IH Hb), Hc.
Qed.

Lemma rstrip_padded (s b : string) (c : ascii) :
  Py.is_space c = false → all_space b = true →
  Py.rstrip (s +:+ String c b) = s +:+ String c "".
Proof.
  intros Hc Hb. induction s as [|x s IH].
  - rewrite !append_nil. simpl. by rewrite (rstrip_spaces b Hb), Hc.
  - rewrite !append_cons. simpl. rewrite IH.
    destruct s; by rewrite ?append_nil, ?append_cons.
Qed.

Lemma search_here {B} (p : string → option B) (s : string) (b : B) :
  p s = Some b → Re.search p s = Some b.
Proof. intros Hp. destruct s; simpl; by rewrite Hp. Qed.

Lemma strip_prefix_head (a c : ascii) (p r : string) :
  c ≠ a → Py.strip_prefix (String a p) (String c r) = None.
Proof.
  intros Hc. simpl. by destruct (Ascii.eqb_spec a c) as [->|_].
Qed.

Lemma strip_padded (a b s : string) (x c : ascii) :
  all_space a = true → all_space b = true →
  Py.is_space x = false → Py.is_space c = false →
  Py.strip (a +:+ String x (s +:+ String c b)) = String x (s +:+ String c "").
Proof.
  intros Ha Hb Hx Hc. unfold Py.strip. rewrite lstrip_padded by done.
  simpl Py.lstrip. rewrite Hx.
  change (String x (s +:+ String c b)) with (String x s +:+ String c b).
  by rewrite rstrip_padded.
Qed.

(** ** A definition and its value, as the files write them *)

(** An ASCII definition line in the usual shape (text without [>], then
    [>/], a path, the short name, [</] and a tail with no other [</])
    directly followed by a line with the value between the two value tags,
    with ASCII white space before and after, or none: when the short name
    is expected, the scanner records for it exactly the file, the stripped
    definition line and the value, and goes on with the line after the
    value. *)
Theorem definition_and_value_recorded
    (parameters : gmap string string) (arxml_file : string)
    (pre path param_name post indent value trail ev : string)
    (rest : list string) (param_data : occurrences) (out : console) :
  let line := pre +:+ ">/" +:+ path +:+ param_name +:+ "</" +:+ post in
  ascii_only line = true →
  Py.contains "DEFINITION-REF" line = true →
  has_char ">" pre = false →
  dots (path +:+ param_name) = true →
  path = "" ∨ (∃ p, path = p +:+ "/") →
  has_char "/" param_name = false →
  Py.contains "</" post = false →
  parameters !! param_name = Some ev →
  dots value = true →
  all_space indent = true → all_space trail = true →
  scan_lines parameters arxml_file
    (line :: (indent +:+ "<VALUE>" +:+ value +:+ "</VALUE>" +:+ trail) :: rest)
    param_data out
  = scan_lines parameters arxml_file rest
      (add_occurrence param_name [arxml_file; Py.strip line; value]
         param_data)
      out.
Proof.
  intros line _ Hmark Hpre Hdots Hpath Hname Hpost HP Hv Hi Ht.
  rewrite scan_lines_cons.
  assert (Hrec : recognized parameters line = Some param_name).
  { unfold recognized. rewrite Hmark.
    assert (Hpat : param_pattern line = Some (path +:+ param_name)).
    { unfold param_pattern, line.
      change (">/" +:+ path +:+ param_name +:+ "</" +:+ post)
        with (String ">" ("/" +:+ path +:+ param_name +:+ "</" +:+ post)).
      rewrite (search_skip _ ">"); [|
        |done].
      2:{ intros c r Hc. by rewrite strip_prefix_head. }
      change (String ">" ("/" +:+ path +:+ param_name +:+ "</" +:+ post))
        with (">/" +:+ path +:+ param_name +:+ "</" +:+ post).
      rewrite <- (append_assoc path param_name).
      apply search_here.
      rewrite (proj2 (strip_prefix_Some ">/" _ _) eq_refl). simpl.
      by apply dot_star_last_closing. }
    rewrite Hpat, (last_split_name Py.slash path param_name Hname Hpath).
    rewrite decide_True; [done|]. by rewrite HP. }
  rewrite Hrec.
  assert (Hstrip : Py.strip (indent +:+ "<VALUE>" +:+ value +:+ "</VALUE>"
                             +:+ trail)
                   = "<VALUE>" +:+ value +:+ "</VALUE>").
  { transitivity (String "<" (("VALUE>" +:+ value +:+ "</VALUE")
                              +:+ String ">" "")).
    - rewrite <- (strip_padded indent trail _ "<" ">" Hi Ht eq_refl eq_refl).
      f_equal. f_equal. by rewrite !append_assoc.
    - by rewrite !append_assoc. }
  rewrite Hstrip.
  unfold value_pattern.
  by rewrite (proj2 (wrapped_pattern "<VALUE>" "</VALUE>" "") value Hv).
Qed.

Lemma definition_and_value_recorded_witness :
  scan_lines {["Param" := "10 ms"]} "cfg/a.arxml"
    (("<DEFINITION-REF DEST=x" +:+ ">/" +:+ "A/B/" +:+ "Param" +:+ "</"
      +:+ ("DEFINITION-REF>" +:+ nl))
     :: ("    " +:+ "<VALUE>" +:+ "10 MS" +:+ "</VALUE>" +:+ nl) :: [])
    ∅ []
  = scan_lines {["Param" := "10 ms"]} "cfg/a.arxml" []
      (add_occurrence "Param"
         ["cfg/a.arxml";
          Py.strip ("<DEFINITION-REF DEST=x" +:+ ">/" +:+ "A/B/" +:+ "Param"
                    +:+ "</" +:+ ("DEFINITION-REF>" +:+ nl));
          "10 MS"] ∅)
      [].
Proof.
  apply (definition_and_value_recorded {["Param" := "10 ms"]} "cfg/a.arxml"
           "<DEFINITION-REF DEST=x" "A/B/" "Param" ("DEFINITION-REF>" +:+ nl)
           "    " "10 MS" nl "10 ms" [] ∅ []).
  - reflexivity.
  - reflexivity.
  - reflexivity.
  - reflexivity.
  - right. by exists "A/B".
  - reflexivity.
  - reflexivity.
  - vm_compute. reflexivity.
  - reflexivity.
  - reflexivity.
  - reflexivity.
Defined.

(** ** Errors of the classification *)

(** [compute_param] returns exactly on a non-empty list of complete
    occurrences.  On the empty list it raises [StopIteration]; when some
    occurrence has fewer than three components it raises [IndexError],
    wherever that occurrence stands in the list. *)
Theorem compute_param_errors (param_name param_expected_value : string)
    (param_result : list (list string)) :
  ((∃ r, compute_param param_name param_expected_value param_result = Ok r)
   ↔ param_result ≠ [] ∧ Forall complete param_result)
  ∧ (compute_param param_name param_expected_value param_result
     = Raise StopIteration ↔ param_result = [])
  ∧ (compute_param param_name param_expected_value param_result
     = Raise IndexError ↔ ¬ Forall complete param_result).
Proof.
  split; [|split]; split.
  - intros [r Hr]. by destruct (compute_param_placed _ _ _ _ Hr) as (? & ? & _).
  - intros [Hne Hl].
    destruct (compute_param_ok param_name param_expected_value param_result
                Hl Hne) as (r & Hr & _). eauto.
  - intros He. by apply compute_param_raise in He as [[? _]|[_ ?]].
  - by intros ->.
  - intros He. by apply compute_param_raise in He as [[_ ?]|[? _]].
  - apply compute_param_incomplete.
Qed.

(** [compute_params] raises exactly when some expected parameter has an
    entry in the occurrence table that is empty or holds an incomplete
    occurrence; entries of names that are not expected never matter. *)
Theorem compute_params_errors (parameters : gmap string string)
    (param_search_result : occurrences) (out : console) :
  (∃ e, compute_params parameters param_search_result out = Raise e)
  ↔ ∃ n l, is_Some (parameters !! n) ∧ param_search_result !! n = Some l
           ∧ (l = [] ∨ ¬ Forall complete l).
Proof.
  split.
  - intros [e He].
    pose proof (compute_params_rounds parameters param_search_result out)
      as Hr.
    rewrite He in Hr. destruct Hr as (n & ev & l & Hn & Hl & Hc).
    exists n, l. split; [eauto|]. split; [done|].
    apply compute_param_raise in Hc as [[-> _]|[Hc _]]; auto.
  - intros (n & l & Hn & Hl & Hbad).
    destruct (compute_params parameters param_search_result out)
      as [[b out']|e] eqn:Hb; [|eauto].
    destruct (compute_params_lookup _ _ _ _ _ Hb) as [Hs _].
    destruct (Hs n Hn l Hl) as [Hc Hne]. by destruct Hbad.
Qed.

(** ** What the four dictionaries hold *)

(** With an empty occurrence table every expected parameter is filed under
    [nothing_found_container], with the not-found markers and its expected
    value, and the three other dictionaries are empty. *)
Theorem nothing_scanned_all_not_found (parameters : gmap string string)
    (out : console) :
  ∃ b out',
    compute_params parameters ∅ out = Ok (b, out')
    ∧ values_as_expected b = ∅
    ∧ cannot_decide_value b = ∅
    ∧ not_equal_expected_actual_values b = ∅
    ∧ nothing_found_container b
      = map_imap (λ n ev, Some {| name := n; expected_value := ev;
                                  actual_value := "not found";
                                  found_in := "not found" |})
          parameters.
Proof.
  destruct (compute_params_returns parameters ∅ out) as (b & out' & Hb).
  { intros n _ l Hl. by apply lookup_empty_Some in Hl. }
  exists b, out'. split; [done|].
  destruct (compute_params_lookup _ _ _ _ _ Hb) as [_ Hl].
  assert (He : ∀ v n, bucket_of v b !! n
                      = parameters !! n
                        ≫= λ ev, if decide (v = NOT_FOUND)
                                 then Some (not_found n ev) else None).
  { intros v n. rewrite Hl. destruct (parameters !! n) as [ev|]; [|done].
    simpl. unfold entry. by rewrite lookup_empty. }
  repeat split; apply map_eq; intros n.
  - pose proof (He AGREED n) as H. simpl in H.
    rewrite lookup_empty, H. by destruct (parameters !! n).
  - pose proof (He AMBIGUOUS n) as H. simpl in H.
    rewrite lookup_empty, H. by destruct (parameters !! n).
  - pose proof (He MISMATCHED n) as H. simpl in H.
    rewrite lookup_empty, H. by destruct (parameters !! n).
  - pose proof (He NOT_FOUND n) as H. simpl in H.
    rewrite map_lookup_imap, H. by destruct (parameters !! n).
Qed.

(** Every entry of the four dictionaries stands under the name it carries,
    the name is an expected parameter, and the entry carries the expected
    value as the table has it, not its normalized form. *)
Theorem entries_match_parameters (parameters : gmap string string)
    (param_search_result : occurrences) (out out' : console) (b : buckets)
    (v : verdict) (n : string) (c : container) :
  compute_params parameters param_search_result out = Ok (b, out') →
  bucket_of v b !! n = Some c →
  name c = n ∧ parameters !! n = Some (expected_value c).
Proof.
  intros Hb Hc.
  destruct (compute_params_lookup _ _ _ _ _ Hb) as [_ Hl].
  rewrite Hl in Hc. destruct (parameters !! n) as [ev|]; [|done].
  simpl in Hc. unfold entry in Hc.
  destruct (param_search_result !! n) as [l|].
  - destruct (compute_param n ev l) as [[[r0 r1] r2]|e] eqn:Hr; [|done].
    destruct (compute_param_placed _ _ _ _ Hr) as (_ & _ & Hp).
    inversion Hp as [c' Hn He|c' Hn He|c' Hn He]; subst r0 r1 r2;
      destruct v; rewrite ?lookup_empty, ?lookup_singleton_eq in Hc;
      try done; injection Hc as <-; by rewrite Hn, He.
  - case_decide; [|done]. by injection Hc as <-.
Qed.

Lemma entries_match_parameters_witness :
  name (get_container_dict "P" "10 ms"
          (value_fields [["a.arxml"; "l"; "10 MS"]] +:+ computed_line "10")
          (found_fields [["a.arxml"; "l"; "10 MS"]])) = "P"
  ∧ ({["P" := "10 ms"]} : gmap string string) !! "P"
    = Some (expected_value
              (get_container_dict "P" "10 ms"
                 (value_fields [["a.arxml"; "l"; "10 MS"]]
                  +:+ computed_line "10")
                 (found_fields [["a.arxml"; "l"; "10 MS"]]))).
Proof.
  apply (entries_match_parameters {["P" := "10 ms"]}
           {["P" := [["a.arxml"; "l"; "10 MS"]]]} [] []
           {| values_as_expected :=
                {["P" := get_container_dict "P" "10 ms"
                           (value_fields [["a.arxml"; "l"; "10 MS"]]
                            +:+ computed_line "10")
                           (found_fields [["a.arxml"; "l"; "10 MS"]])]};
              nothing_found_container := ∅;
              cannot_decide_value := ∅;
              not_equal_expected_actual_values := ∅ |}
           AGREED "P").
  - vm_compute. reflexivity.
  - vm_compute. reflexivity.
Defined.

Lemma compute_params_round_ext (T T' : occurrences) (n ev : string)
    (state : result (buckets * console)) :
  T !! n = T' !! n →
  compute_params_round T n ev state = compute_params_round T' n ev state.
Proof.
  intros HT. unfold compute_params_round.
  destruct state as [[b o]|e]; [|done]. simpl. by rewrite HT.
Qed.

(** Entries of the occurrence table under names that are not expected are
    never read: two tables that agree on the expected names give the same
    dictionaries, the same console and the same exception. *)
Theorem unexpected_entries_ignored (parameters : gmap string string)
    (T T' : occurrences) (out : console) :
  (∀ n, is_Some (parameters !! n) → T !! n = T' !! n) →
  compute_params parameters T out = compute_params parameters T' out.
Proof.
  intros HT. unfold compute_params. rewrite !map_fold_foldr.
  assert (Hin : ∀ n ev, (n, ev) ∈ map_to_list parameters →
                        is_Some (parameters !! n)).
  { intros n ev Hn%elem_of_map_to_list. eauto. }
  induction (map_to_list parameters) as [|[n ev] items IH]; [done|].
  simpl. rewrite IH.
  - apply compute_params_round_ext, HT, (Hin n ev). by left.
  - intros m ev' Hm. apply (Hin m ev'). by right.
Qed.

Lemma unexpected_entries_ignored_witness :
  compute_params {["P" := "1"]}
    {["P" := [["a.arxml"; "l"; "1"]]; "Q" := []]} []
  = compute_params {["P" := "1"]} {["P" := [["a.arxml"; "l"; "1"]]]} [].
Proof.
  apply (unexpected_entries_ignored {["P" := "1"]}
           {["P" := [["a.arxml"; "l"; "1"]]; "Q" := []]}
           {["P" := [["a.arxml"; "l"; "1"]]]} []).
  intros n [ev Hn]. apply lookup_singleton_Some in Hn as [<- _].
  vm_compute. reflexivity.
Defined.

(** ** The normalization *)

Lemma upper_char_fixed (c : ascii) :
  Py.upper_char (Py.upper_char c) = Py.upper_char c
  ∧ (Ascii.eqb (Py.upper_char c) Py.space = Ascii.eqb c Py.space).
Proof.
  destruct c as [[] [] [] [] [] [] [] []]; by vm_compute.
Qed.

Lemma upper_upper (s : string) : Py.upper (Py.upper s) = Py.upper s.
Proof.
  induction s as [|c s IH]; [done|]. simpl.
  by rewrite IH, (proj1 (upper_char_fixed c)).
Qed.

Lemma upper_append (a b : string) :
  Py.upper (a +:+ b) = Py.upper a +:+ Py.upper b.
Proof.
  induction a as [|c a IH]; [done|]. rewrite append_cons. simpl.
  by rewrite IH.
Qed.

Lemma before_upper_tail (a b : string) :
  has_char Py.space a = false →
  before Py.space (Py.upper (a +:+ String Py.space b)) = Py.upper a.
Proof.
  induction a as [|c a IH].
  - intros _. reflexivity.
  - rewrite append_cons. simpl. intros [Hc Ha]%orb_false_elim.
    rewrite (proj2 (upper_char_fixed c)), Hc. by rewrite IH.
Qed.

Lemma before_upper_whole (a : string) :
  has_char Py.space a = false → before Py.space (Py.upper a) = Py.upper a.
Proof.
  induction a as [|c a IH]; [done|]. simpl.
  intros [Hc Ha]%orb_false_elim.
  rewrite (proj2 (upper_char_fixed c)), Hc. by rewrite IH.
Qed.

(** On ASCII text the form under which values are compared is the
    upper-cased text before the first space: what follows the first space
    is ignored, letter case is ignored, and normalizing twice changes
    nothing. *)
Theorem processed_ignores_case_and_tail (a b : string) :
  ascii_only a = true → ascii_only b = true →
  has_char Py.space a = false →
  processed a = Ok (Py.upper a)
  ∧ processed (a +:+ " " +:+ b) = processed a
  ∧ processed (Py.upper a) = processed a
  ∧ processed (Py.upper a) = Ok (Py.upper a).
Proof.
  intros _ _ Ha. rewrite !processed_before, upper_upper.
  change (" " +:+ b) with (String Py.space b).
  by rewrite before_upper_tail, before_upper_whole.
Qed.

Lemma processed_ignores_case_and_tail_witness :
  processed "10" = Ok (Py.upper "10")
  ∧ processed ("10" +:+ " " +:+ "ms") = processed "10"
  ∧ processed (Py.upper "10") = processed "10"
  ∧ processed (Py.upper "10") = Ok (Py.upper "10").
Proof.
  apply (processed_ignores_case_and_tail "10" "ms"); reflexivity.
Defined.

(** ** The tables of the extractor *)

Lemma extract_rows_skipped (r : row) (rows : list row)
    (P : gmap string string) (C : gmap string row) (out : console) :
  skipped r = true →
  extract_rows (r :: rows) P C out = extract_rows rows P C out.
Proof.
  unfold skipped. simpl. unfold fill_params_dict.
  destruct (object_type_cell r) as [|ot|k]; try done. simpl.
  by destruct (Py.contains "Requirement" ot).
Qed.

(** Rows whose object type is text without [Requirement] can be taken out
    of the sheet: the tables, the console and the exception, if any, stay
    the same, whatever their text cell holds. *)
Theorem skipped_rows_change_nothing (active_sheet : list row)
    (out : console) :
  extract_params_from_excel (filter (λ r, skipped r = false) active_sheet) out
  = extract_params_from_excel active_sheet out.
Proof.
  unfold extract_params_from_excel. f_equal.
  generalize (∅ : gmap string string) (∅ : gmap string row) out.
  induction active_sheet as [|r rows IH]; intros P C o; [done|].
  destruct (skipped r) eqn:Hr.
  - rewrite filter_cons_False by (by rewrite Hr).
    by rewrite extract_rows_skipped.
  - rewrite filter_cons_True by done. simpl.
    destruct (fill_params_dict _ _ P o) as [[[x P1] o1]|e]; [|done].
    simpl. apply IH.
Qed.

Lemma cells_match_step (r : row) (P P1 : gmap string string)
    (C : gmap string row) (seen : list row) (out o1 : console)
    (x : option string) :
  fill_params_dict (object_type_cell r) (text_cell r) P out = Ok (x, P1, o1) →
  cells_match P C seen →
  cells_match P1
    (match x with
     | Some n => if decide (n = "") then C else <[n := r]> C
     | None => C
     end)
    (seen ++ [r]).
Proof.
  intros Hf [Hdom Hrow].
  assert (Hkeep : ∀ n r', C !! n = Some r' →
            r' ∈ seen ++ [r] ∧ ∃ v, defines r' n v ∧ P1 !! n = Some v).
  { intros n r' Hn. destruct (Hrow n r' Hn) as (Hin & v & Hd & Hv).
    split; [apply elem_of_app; by left|]. exists v. split; [done|].
    by apply (fill_params_dict_keeps _ _ _ _ _ _ _ n v Hf). }
  pose proof (fill_params_dict_cases (object_type_cell r) (text_cell r) P out)
    as H.
  destruct (fill_params_dict _ _ ∅ []) as [[[[m|] P0] o0]|e] eqn:H0.
  - destruct H as (v & _ & Hd & H). rewrite H in Hf.
    assert (Hdef : defines r m v) by (unfold defines; by rewrite H0).
    destruct (decide (is_Some (P !! m))) as [Hm|Hm];
      injection Hf as <- <- <-; [done|].
    assert (Hnone : P !! m = None).
    { destruct (P !! m); [destruct Hm; eauto | done]. }
    split.
    + intros n. destruct (decide (m = "")) as [->|Hme].
      * rewrite Hdom. destruct (decide (n = "")) as [->|Hn].
        -- split; by intros [_ ?].
        -- by rewrite lookup_insert_ne.
      * destruct (decide (n = m)) as [->|Hn].
        -- rewrite !lookup_insert_eq. split; [by eauto|eauto].
        -- by rewrite !lookup_insert_ne.
    + intros n r'. destruct (decide (m = "")) as [->|Hme]; [apply Hkeep|].
      destruct (decide (n = m)) as [->|Hn].
      * rewrite lookup_insert_eq. intros [= <-].
        split; [apply elem_of_app; right; by left|].
        exists v. split; [exact Hdef|]. by rewrite lookup_insert_eq.
      * rewrite lookup_insert_ne by done. apply Hkeep.
  - rewrite H in Hf. injection Hf as <- <- <-. by split.
  - congruence.
Qed.

Lemma extract_rows_cells_match (rows : list row) :
  ∀ P C out seen P' C' out',
    extract_rows rows P C out = Ok (P', C', out') →
    cells_match P C seen → cells_match P' C' (seen ++ rows).
Proof.
  induction rows as [|r rows IH]; intros P C out seen P' C' out'; simpl.
  - intros [= <- <- <-]. by rewrite app_nil_r.
  - destruct (fill_params_dict _ _ P out) as [[[x P1] o1]|e] eqn:Hf;
      simpl; [|done].
    intros He Hm. rewrite (cons_middle r seen rows), app_assoc.
    apply (IH _ _ _ _ _ _ _ He).
    by apply (cells_match_step r P P1 C seen out o1 x).
Qed.

(** What [extract_params_from_excel] returns: the cells table has a row for
    every registered parameter name except the empty name, and no other;
    each row is a row of the sheet that defines the name, with the value
    the parameters table holds.  A requirement whose path is blank is
    registered under the empty name and gets no row. *)
Theorem extracted_cells_match_parameters (active_sheet : list row)
    (out out' : console) (parameters : gmap string string)
    (parameters_cells : gmap string row) :
  extract_params_from_excel active_sheet out
  = Ok (parameters, parameters_cells, out') →
  dom parameters_cells = dom parameters ∖ {[""]}
  ∧ ∀ n r, parameters_cells !! n = Some r →
      r ∈ active_sheet ∧ ∃ v, defines r n v ∧ parameters !! n = Some v.
Proof.
  unfold extract_params_from_excel.
  destruct (extract_rows active_sheet ∅ ∅ out) as [[[P C] o]|e] eqn:He;
    simpl; [|done].
  intros [= <- <- <-].
  destruct (extract_rows_cells_match active_sheet ∅ ∅ out [] P C o He)
    as [Hdom Hrow].
  { split.
    - intros n. rewrite !lookup_empty. split; [by intros [? ?]|].
      by intros [[? ?] _].
    - intros n r Hn. by apply lookup_empty_Some in Hn. }
  split; [|done].
  apply set_eq. intros n.
  rewrite elem_of_difference, !elem_of_dom, Hdom, not_elem_of_singleton.
  done.
Qed.

Lemma extracted_cells_match_parameters_witness :
  dom ({["P" := Row (CStr "Requirement") (CStr "P shall be set to 5") []]}
       : gmap string row)
  = dom ({["" := "7"; "P" := "5"]} : gmap string string) ∖ {[""]}
  ∧ ∀ n r,
      ({["P" := Row (CStr "Requirement") (CStr "P shall be set to 5") []]}
       : gmap string row) !! n = Some r →
      r ∈ [Row (CStr "Requirement") (CStr "P shall be set to 5") [];
           Row (CStr "Requirement") (CStr " shall be set to 7") []]
      ∧ ∃ v, defines r n v
             ∧ ({["" := "7"; "P" := "5"]} : gmap string string) !! n = Some v.
Proof.
  apply (extracted_cells_match_parameters
           [Row (CStr "Requirement") (CStr "P shall be set to 5") [];
            Row (CStr "Requirement") (CStr " shall be set to 7") []]
           [] ["Found 2 parameters"]).
  vm_compute. reflexivity.
Defined.

(** ** The shape of the registered names and values *)

Lemma rstrip_idem (s : string) : Py.rstrip (Py.rstrip s) = Py.rstrip s.
Proof.
  induction s as [|c s IH]; [done|]. simpl.
  destruct (Py.rstrip s) as [|y t] eqn:Hs.
  - destruct (Py.is_space c) eqn:Hc; [done|]. simpl. by rewrite Hc.
  - change (Py.rstrip (String c (String y t)))
      with (match Py.rstrip (String y t) with
            | "" => if Py.is_space c then "" else String c ""
            | r => String c r
            end).
    by rewrite IH.
Qed.

Lemma lstrip_head (s : string) :
  Py.lstrip s = ""
  ∨ ∃ c r, Py.lstrip s = String c r ∧ Py.is_space c = false.
Proof.
  induction s as [|c s IH]; [by left|]. simpl.
  destruct (Py.is_space c) eqn:Hc; [done|]. right. by exists c, s.
Qed.

Lemma rstrip_head (c : ascii) (r : string) :
  Py.is_space c = false → ∃ r', Py.rstrip (String c r) = String c r'.
Proof.
  intros Hc. simpl. destruct (Py.rstrip r) as [|y t]; rewrite ?Hc; eauto.
Qed.

Lemma strip_idem (s : string) : Py.strip (Py.strip s) = Py.strip s.
Proof.
  unfold Py.strip. destruct (lstrip_head s) as [->|(c & r & -> & Hc)]; [done|].
  destruct (rstrip_head c r Hc) as [r' Hr]. rewrite Hr. simpl Py.lstrip.
  rewrite Hc, <- Hr. apply rstrip_idem.
Qed.

Lemma dots_lstrip (s : string) : dots s = true → dots (Py.lstrip s) = true.
Proof.
  induction s as [|c s IH]; [done|]. simpl.
  intros [Hc Hs]%andb_prop. destruct (Py.is_space c); [by apply IH|].
  simpl. by rewrite Hc, Hs.
Qed.

Lemma dots_rstrip (s : string) : dots s = true → dots (Py.rstrip s) = true.
Proof.
  induction s as [|c s IH]; [done|]. simpl.
  intros [Hc Hs]%andb_prop. specialize (IH Hs).
  destruct (Py.rstrip s) as [|y t].
  - destruct (Py.is_space c); [done|]. simpl. by rewrite Hc.
  - change (dots (String c (String y t)))
      with (Re.dot c && dots (String y t)). by rewrite Hc, IH.
Qed.

Lemma dots_no_newline (s : string) :
  dots s = true → has_char Py.newline s = false.
Proof.
  induction s as [|c s IH]; [done|]. simpl.
  intros [Hc Hs]%andb_prop. rewrite (IH Hs). unfold Re.dot in Hc.
  by destruct (Ascii.eqb c Py.newline).
Qed.

Lemma get_param_well_formed (text path value : string) :
  get_param (Py.replace Py.newline Py.space text) = Some (path, value) →
  well_formed (Py.strip path) value.
Proof.
  intros Hg. pose proof (dots_replace text) as Hline.
  rewrite get_param_dot_star in Hg.
  destruct (dot_star_sound _ _ _ _ Hg) as (r & Hr & Hpath & Ha).
  destruct (after_path_Some _ _ Ha)
    as (c & g & w & rest & -> & Hc & Hgd & Hw & -> & _).
  rewrite Hr in Hline.
  destruct (dots_parts _ _ _ _ _ Hline) as (_ & _ & _ & Hwd & _).
  split; [apply strip_idem|]. split; [|split].
  - apply dots_no_newline. unfold Py.strip.
    by apply dots_rstrip, dots_lstrip.
  - apply dots_no_newline. rewrite dots_append. simpl.
    by rewrite Hgd, Hwd.
  - by exists g, w.
Qed.

Lemma fill_params_dict_well_formed (ot text : cell_value)
    (P P' : gmap string string) (out out' : console) (x : option string) :
  fill_params_dict ot text P out = Ok (x, P', out') →
  (∀ n v, P !! n = Some v → well_formed n v) →
  ∀ n v, P' !! n = Some v → well_formed n v.
Proof.
  destruct ot as [|ot|k]; try done.
  destruct text as [|text|k].
  - unfold fill_params_dict. simpl.
    destruct (Py.contains "Requirement" ot); simpl; [done|].
    by intros [= <- <- <-].
  - rewrite fill_params_dict_text.
    destruct (Py.contains "Requirement" ot); [|by intros [= <- <- <-]].
    destruct (get_param _) as [[path value]|] eqn:Hg;
      [|by intros [= <- <- <-]].
    simpl. destruct (decide (is_Some (P !! Py.strip path))) as [Hm|Hm];
      intros [= <- <- <-]; [done|].
    intros HP n v. destruct (decide (n = Py.strip path)) as [->|Hn].
    + rewrite lookup_insert_eq. intros [= <-].
      by apply (get_param_well_formed text).
    + rewrite lookup_insert_ne by done. apply HP.
  - unfold fill_params_dict. simpl.
    destruct (Py.contains "Requirement" ot); simpl; [done|].
    by intros [= <- <- <-].
Qed.

Lemma extract_rows_well_formed (rows : list row) :
  ∀ P C out P' C' out',
    extract_rows rows P C out = Ok (P', C', out') →
    (∀ n v, P !! n = Some v → well_formed n v) →
    ∀ n v, P' !! n = Some v → well_formed n v.
Proof.
  induction rows as [|r rows IH]; intros P C out P' C' out'; simpl.
  - by intros [= <- <- <-].
  - destruct (fill_params_dict _ _ P out) as [[[x P1] o1]|e] eqn:Hf;
      simpl; [|done].
    intros He HP. apply (IH _ _ _ _ _ _ He).
    by apply (fill_params_dict_well_formed _ _ _ _ _ _ _ Hf).
Qed.

(** On a sheet whose text cells are ASCII, every requirement
    [extract_params_from_excel] registers has a name without white space at
    either end (stripping it again changes nothing), a name and a value
    without line feed, and a value that ends with a word character:
    whatever follows the last word character of the sentence is dropped. *)
Theorem extracted_parameters_well_formed (active_sheet : list row)
    (out out' : console) (parameters : gmap string string)
    (parameters_cells : gmap string row) (n v : string) :
  (∀ r text, r ∈ active_sheet → text_cell r = CStr text →
             ascii_only text = true) →
  extract_params_from_excel active_sheet out
  = Ok (parameters, parameters_cells, out') →
  parameters !! n = Some v →
  Py.strip n = n
  ∧ has_char Py.newline n = false
  ∧ has_char Py.newline v = false
  ∧ ∃ g w, v = g +:+ String w "" ∧ Py.is_word w = true.
Proof.
  intros _. unfold extract_params_from_excel.
  destruct (extract_rows active_sheet ∅ ∅ out) as [[[P C] o]|e] eqn:He;
    simpl; [|done].
  intros [= <- <- <-]. apply (extract_rows_well_formed _ _ _ _ _ _ _ He).
  intros n' v' Hn. by apply lookup_empty_Some in Hn.
Qed.

Lemma extracted_parameters_well_formed_witness :
  Py.strip "A/B/P" = "A/B/P"
  ∧ has_char Py.newline "A/B/P" = false
  ∧ has_char Py.newline "10 ms" = false
  ∧ ∃ g w, "10 ms" = g +:+ String w "" ∧ Py.is_word w = true.
Proof.
  apply (extracted_parameters_well_formed
           [Row (CStr "Requirement")
              (CStr ("  A/B/P " +:+ nl +:+ "shall be set to 10 ms. ")) []]
           [] ["Found 1 parameters"]
           {["A/B/P" := "10 ms"]}
           {["A/B/P" := Row (CStr "Requirement")
              (CStr ("  A/B/P " +:+ nl +:+ "shall be set to 10 ms. ")) []]}).
  - intros r text Hr Ht. apply list_elem_of_singleton in Hr as ->.
    simpl in Ht. injection Ht as <-. reflexivity.
  - vm_compute. reflexivity.
  - vm_compute. reflexivity.
Defined.

(** ** The report and the rows of the workbook *)

Lemma set_value_marked (status comment : string) (r : row) :
  set_value r 3 status ≫= (λ cell, set_value cell 6 comment)
  = marked status comment r.
Proof.
  unfold marked, set_value.
  destruct (decide (1 < List.length (other_cells r))%nat) as [H1|H1]; simpl.
  - rewrite length_insert.
    destruct (decide (4 < List.length (other_cells r))%nat) as [H4|H4];
      destruct (decide (5 ≤ List.length (other_cells r))%nat); try lia; done.
  - destruct (decide (5 ≤ List.length (other_cells r))%nat); [lia|done].
Qed.

Lemma mark_marked (status comment n : string) (x : container)
    (f : string) (C : gmap string row) :
  mark status comment n x (inr (f, C))
  = match C !! n with
    | None => inl (KeyError n)
    | Some r =>
        match marked status comment r with
        | None => inl TupleIndexError
        | Some r' => inr (write_line f x, <[n := r']> C)
        end
    end.
Proof.
  unfold mark. destruct (C !! n) as [r|]; [|done].
  rewrite <- set_value_marked.
  destruct (set_value r 3 status) as [r1|]; simpl; [|done].
  by destruct (set_value r1 6 comment).
Qed.

Lemma marked_Some (s c : string) (r r' : row) :
  marked s c r = Some r' →
  (5 ≤ List.length (other_cells r))%nat
  ∧ List.length (other_cells r') = List.length (other_cells r).
Proof.
  unfold marked. destruct (decide _) as [H|H]; [|done].
  intros [= <-]. simpl. by rewrite !length_insert.
Qed.

Lemma marked_None (s c : string) (r : row) :
  marked s c r = None ↔ ¬ (5 ≤ List.length (other_cells r))%nat.
Proof. unfold marked. by destruct (decide _). Qed.

Lemma marked_twice (s0 c0 s c : string) (o : option row) :
  (o ≫= marked s0 c0) ≫= marked s c = o ≫= marked s c.
Proof.
  destruct o as [r|]; [|done]. simpl. unfold marked.
  destruct (decide (5 ≤ List.length (other_cells r))%nat) as [H|H]; [|done].
  simpl. rewrite !length_insert.
  destruct (decide (5 ≤ List.length (other_cells r))%nat); [|done].
  do 2 f_equal.
  rewrite (list_insert_insert_ne _ 1 4) by done.
  by rewrite !list_insert_insert_eq.
Qed.

(** The loop over one dictionary, from the table [C]. *)
Lemma marks_spec (s c f : string) (C : gmap string row) (d : bucket) :
  match map_fold (mark s c) (inr (f, C)) d with
  | inr (_, C') =>
      (∀ n, is_Some (d !! n) → is_Some (C !! n ≫= marked s c))
      ∧ ∀ n, C' !! n = if decide (is_Some (d !! n))
                       then C !! n ≫= marked s c else C !! n
  | inl (KeyError k) => is_Some (d !! k) ∧ C !! k = None
  | inl TupleIndexError =>
      ∃ k r, is_Some (d !! k) ∧ C !! k = Some r ∧ marked s c r = None
  end.
Proof.
  set (P := λ (state : report_exn + report_state) (m : bucket),
       match state with
       | inr (_, C') =>
           (∀ n, is_Some (m !! n) → is_Some (C !! n ≫= marked s c))
           ∧ ∀ n, C' !! n = if decide (is_Some (m !! n))
                            then C !! n ≫= marked s c else C !! n
       | inl (KeyError k) => is_Some (m !! k) ∧ C !! k = None
       | inl TupleIndexError =>
           ∃ k r, is_Some (m !! k) ∧ C !! k = Some r ∧ marked s c r = None
       end).
  cut (P (map_fold (mark s c) (inr (f, C)) d) d); [done|].
  apply (map_fold_weak_ind P); unfold P.
  - split; [by intros n [? ?%lookup_empty_Some]|].
    intros n. destruct (decide _) as [[? ?%lookup_empty_Some]|]; done.
  - intros i x m [[k|]|[f' C']] Hi.
    + intros [Hk HC]. simpl. split; [|done].
      rewrite lookup_insert_is_Some. destruct (decide (i = k)); auto.
    + intros (k & r & Hk & HC & Hr). simpl. exists k, r.
      split; [|done]. rewrite lookup_insert_is_Some.
      destruct (decide (i = k)); auto.
    + intros [Hin HC']. rewrite mark_marked.
      assert (Hci : C' !! i = C !! i).
      { rewrite HC'. destruct (decide (is_Some (m !! i))) as [[? ?]|];
          [congruence|done]. }
      rewrite Hci. destruct (C !! i) as [r|] eqn:Hr.
      * destruct (marked s c r) as [r'|] eqn:Hm.
        -- split.
           ++ intros n. destruct (decide (n = i)) as [->|Hn].
              ** intros _. rewrite Hr. simpl. rewrite Hm. eauto.
              ** rewrite lookup_insert_ne by done. apply Hin.
           ++ intros n. destruct (decide (n = i)) as [->|Hn].
              ** rewrite !lookup_insert_eq.
                 destruct (decide _) as [_|Hno]; [|destruct Hno; eauto].
                 rewrite Hr. simpl. by rewrite Hm.
              ** rewrite !lookup_insert_ne by done. apply HC'.
        -- exists i, r. rewrite lookup_insert_eq. eauto.
      * rewrite lookup_insert_eq. eauto.
Qed.

Lemma report_section_ok (title s c : string) (d : bucket)
    (rem : string → option (string * string)) (C : gmap string row)
    (state : report_exn + report_state) :
  report_ok rem C state →
  report_ok (λ n, if decide (is_Some (d !! n)) then Some (s, c) else rem n)
    C (report_section title s c d state).
Proof.
  destruct state as [[k|]|[f Ck]]; simpl.
  - intros [Hk HC]. split; [|done]. by destruct (decide _).
  - intros (k & r & Hk & HC & Hr). exists k, r.
    split; [|done]. by destruct (decide _).
  - intros H.
    pose proof (marks_spec s c (write_report_header (write f title)) Ck d)
      as Hm.
    destruct (map_fold _ _ d) as [[k|]|[f' C']]; simpl.
    + destruct Hm as [Hk HC]. destruct (decide _) as [_|Hno]; [|done].
      split; [done|]. specialize (H k).
      destruct (rem k) as [[s0 c0]|]; [|congruence].
      destruct H as [[r Hr] Hck]. congruence.
    + destruct Hm as (k & r & Hk & HC & Hr). exists k, r.
      destruct (decide _) as [_|Hno]; [|done]. split; [done|].
      specialize (H k). apply marked_None in Hr.
      destruct (rem k) as [[s0 c0]|]; [|split; congruence].
      destruct H as [_ Hck]. rewrite HC in Hck.
      destruct (C !! k) as [r0|]; [|done]. simpl in Hck.
      symmetry in Hck. apply marked_Some in Hck as [H5 Hlen]. lia.
    + destruct Hm as [Hin HC']. intros n. specialize (H n).
      rewrite HC'. destruct (decide (is_Some (d !! n))) as [Hn|Hn].
      * specialize (Hin n Hn).
        assert (Heq : Ck !! n ≫= marked s c = C !! n ≫= marked s c).
        { destruct (rem n) as [[s0 c0]|].
          - destruct H as [_ ->]. apply marked_twice.
          - by rewrite H. }
        rewrite <- Heq. done.
      * done.
Qed.

Lemma generate_report_ok (C : gmap string row) (b : buckets) :
  report_ok (remark b) C (generate_report C b).
Proof.
  unfold generate_report.
  apply (report_section_ok _ _ _ (not_equal_expected_actual_values b)
           (λ n, if decide (is_Some (cannot_decide_value b !! n)) then _
                 else if decide (is_Some (nothing_found_container b !! n))
                 then _
                 else if decide (is_Some (values_as_expected b !! n))
                 then _ else None)).
  apply (report_section_ok _ _ _ (cannot_decide_value b)
           (λ n, if decide (is_Some (nothing_found_container b !! n))
                 then _
                 else if decide (is_Some (values_as_expected b !! n))
                 then _ else None)).
  apply (report_section_ok _ _ _ (nothing_found_container b)
           (λ n, if decide (is_Some (values_as_expected b !! n))
                 then _ else None)).
  apply (report_section_ok _ _ _ (values_as_expected b) (λ _, None)).
  simpl. done.
Qed.

Lemma remark_is_Some (b : buckets) (n : string) :
  is_Some (remark b n) ↔ ∃ v, is_Some (bucket_of v b !! n).
Proof.
  unfold remark. split.
  - destruct (decide _) as [H3|H3]; [by exists MISMATCHED|].
    destruct (decide _) as [H2|H2]; [by exists AMBIGUOUS|].
    destruct (decide _) as [H1|H1]; [by exists NOT_FOUND|].
    destruct (decide _) as [H0|H0]; [by exists AGREED|].
    by intros [? ?].
  - intros [v Hv].
    destruct (decide _) as [H3|H3]; [eauto|].
    destruct (decide _) as [H2|H2]; [eauto|].
    destruct (decide _) as [H1|H1]; [eauto|].
    destruct (decide _) as [H0|H0]; [eauto|].
    by destruct v.
Qed.

(** [generate_report] returns exactly when every name of the four
    dictionaries has a row of seven cells in [excel_cells].  When it raises
    [KeyError], the key is a name of the dictionaries that has no row; when
    it raises [IndexError], a name of the dictionaries has a row with fewer
    than seven cells. *)
Theorem generate_report_errors (excel_cells : gmap string row)
    (computed_dicts : buckets) :
  ((∃ x, generate_report excel_cells computed_dicts = inr x)
   ↔ ∀ v n, is_Some (bucket_of v computed_dicts !! n) →
       ∃ r, excel_cells !! n = Some r
            ∧ (5 ≤ List.length (other_cells r))%nat)
  ∧ (∀ k, generate_report excel_cells computed_dicts = inl (KeyError k) →
       (∃ v, is_Some (bucket_of v computed_dicts !! k))
       ∧ excel_cells !! k = None)
  ∧ (generate_report excel_cells computed_dicts = inl TupleIndexError →
       ∃ v k r, is_Some (bucket_of v computed_dicts !! k)
                ∧ excel_cells !! k = Some r
                ∧ (List.length (other_cells r) < 5)%nat).
Proof.
  pose proof (generate_report_ok excel_cells computed_dicts) as H.
  destruct (generate_report excel_cells computed_dicts)
    as [[k|]|[f C']]; simpl in H.
  - destruct H as [Hk HC]. apply remark_is_Some in Hk as [v Hv].
    split; [|split].
    + split; [by intros [? ?]|]. intros Hall.
      destruct (Hall v k Hv) as (r & Hr & _). congruence.
    + intros k' [= <-]. eauto.
    + done.
  - destruct H as (k & r & Hk & HC & Hr).
    apply remark_is_Some in Hk as [v Hv]. split; [|split].
    + split; [by intros [? ?]|]. intros Hall.
      destruct (Hall v k Hv) as (r' & Hr' & H5). congruence.
    + done.
    + intros _. exists v, k, r. split; [done|]. split; [done|]. lia.
  - split; [|done]. split; [|by eauto].
    intros _ v n Hv. specialize (H n).
    destruct (remark computed_dicts n) as [[s c]|] eqn:Hrem.
    + destruct H as [[r' Hr'] _].
      destruct (excel_cells !! n) as [r|]; [|done]. simpl in Hr'.
      apply marked_Some in Hr' as [H5 _]. eauto.
    + assert (Hs : is_Some (remark computed_dicts n))
        by (apply remark_is_Some; eauto).
      rewrite Hrem in Hs. by destruct Hs.
Qed.

(** What [generate_report] saves: in the row of a name held by one of the
    four dictionaries, the fourth cell holds the status and the seventh the
    comment of the last dictionary that holds the name ([Agreed] for
    [values_as_expected] alone, [Follow-up] for the others); the other
    cells of the row, and the rows of the other names, are as they were. *)
Theorem generate_report_marks (excel_cells excel_cells' : gmap string row)
    (computed_dicts : buckets) (report : string) :
  generate_report excel_cells computed_dicts = inr (report, excel_cells') →
  ∀ n, excel_cells' !! n
       = match excel_cells !! n with
         | None => None
         | Some r =>
             Some match remark computed_dicts n with
                  | None => r
                  | Some (status, comment) =>
                      {| object_type_cell := object_type_cell r;
                         text_cell := text_cell r;
                         other_cells :=
                           <[4 := CStr comment]>
                             (<[1 := CStr status]> (other_cells r)) |}
                  end
         end.
Proof.
  intros Hg n. pose proof (generate_report_ok excel_cells computed_dicts) as H.
  rewrite Hg in H. specialize (H n). simpl in H.
  destruct (remark computed_dicts n) as [[s c]|].
  - destruct H as [[r' Hr'] ->].
    destruct (excel_cells !! n) as [r|]; [|done]. simpl in *.
    unfold marked in *. by destruct (decide _).
  - rewrite H. by destruct (excel_cells !! n).
Qed.

Lemma generate_report_marks_witness :
  ({["P" := Row (CStr "Requirement") (CStr "P shall be set to 5")
              [CNone; CStr "Agreed"; CNone; CNone;
               CStr "Found in config and value is matching."];
     "Q" := Row (CStr "Requirement") (CStr "Q shall be set to 1")
              [CNum 1; CNum 2; CNum 3; CNum 4; CNum 5]]}
   : gmap string row) !! "P"
  = match ({["P" := Row (CStr "Requirement") (CStr "P shall be set to 5")
                      [CNone; CNone; CNone; CNone; CNone];
             "Q" := Row (CStr "Requirement") (CStr "Q shall be set to 1")
                      [CNum 1; CNum 2; CNum 3; CNum 4; CNum 5]]}
           : gmap string row) !! "P" with
    | None => None
    | Some r =>
        Some match remark
                     (Buckets {["P" := get_container_dict "P" "5" "a" "f"]}
                        ∅ ∅ ∅) "P" with
             | None => r
             | Some (status, comment) =>
                 {| object_type_cell := object_type_cell r;
                    text_cell := text_cell r;
                    other_cells :=
                      <[4 := CStr comment]>
                        (<[1 := CStr status]> (other_cells r)) |}
             end
    end.
Proof.
  apply (generate_report_marks _ _ _
           ("# PARAMETERS WITH VALUES AS EXPECTED" +:+ nl
            +:+ report_table_header +:+ nl
            +:+ "P | 5 | a | f" +:+ nl
            +:+ "# PARAMETERS THAT WERE NOT FOUND IN CONFIG" +:+ nl
            +:+ report_table_header +:+ nl
            +:+ nl +:+ "# PARAMETERS WITH VALUES THAT COULD NOT BE COMPUTED"
            +:+ nl +:+ report_table_header +:+ nl
            +:+ nl +:+ "# PARAMETERS WITH WRONG VALUE" +:+ nl
            +:+ report_table_header +:+ nl)).
  vm_compute. reflexivity.
Defined.

Lemma extract_cells_match (active_sheet : list row) (out out' : console)
    (P : gmap string string) (C : gmap string row) :
  extract_params_from_excel active_sheet out = Ok (P, C, out') →
  cells_match P C active_sheet.
Proof.
  unfold extract_params_from_excel.
  destruct (extract_rows active_sheet ∅ ∅ out) as [[[P0 C0] o]|e] eqn:He;
    simpl; [|done].
  intros [= <- <- <-].
  apply (extract_rows_cells_match active_sheet ∅ ∅ out [] P0 C0 o He).
  split.
  - intros n. rewrite !lookup_empty. split; [by intros [? ?]|].
    by intros [[? ?] _].
  - intros n r Hn. by apply lookup_empty_Some in Hn.
Qed.

(** The run from the sheet to the report, on a sheet whose rows have their
    seven cells: when the extraction and the classification return, for
    whatever occurrences were found, [generate_report] raises [KeyError]
    on the empty name if a requirement with a blank path was registered,
    and returns if none was. *)
Theorem blank_requirement_breaks_report (active_sheet : list row)
    (out out1 out2 : console) (parameters : gmap string string)
    (parameters_cells : gmap string row) (param_search_result : occurrences)
    (computed_dicts : buckets) :
  extract_params_from_excel active_sheet out
  = Ok (parameters, parameters_cells, out1) →
  compute_params parameters param_search_result out1
  = Ok (computed_dicts, out2) →
  (∀ r, r ∈ active_sheet → (5 ≤ List.length (other_cells r))%nat) →
  (is_Some (parameters !! "") →
   generate_report parameters_cells computed_dicts = inl (KeyError ""))
  ∧ (parameters !! "" = None →
     ∃ x, generate_report parameters_cells computed_dicts = inr x).
Proof.
  intros He Hc Hrows.
  destruct (extract_cells_match _ _ _ _ _ He) as [Hdom Hrow].
  destruct (compute_params_partition _ _ _ _ _ Hc) as [_ Hnames].
  assert (Hin : ∀ n, is_Some (parameters !! n)
                     ↔ ∃ v, is_Some (bucket_of v computed_dicts !! n)).
  { intros n. rewrite <- elem_of_dom, <- Hnames, !elem_of_union, !elem_of_dom.
    split.
    - intros [[[H|H]|H]|H];
        [by exists AGREED|by exists NOT_FOUND|by exists AMBIGUOUS
        |by exists MISMATCHED].
    - intros [[] H]; auto. }
  pose proof (generate_report_ok parameters_cells computed_dicts) as H.
  destruct (generate_report parameters_cells computed_dicts)
    as [[k|]|[f C']]; simpl in H.
  - destruct H as [Hk HC].
    apply remark_is_Some, Hin in Hk.
    assert (k = "") as ->.
    { destruct (decide (k = "")) as [|Hne]; [done|].
      assert (Hs : is_Some (parameters_cells !! k)) by (by apply Hdom).
      rewrite HC in Hs. by destruct Hs. }
    split; [done|]. intros Hnone. rewrite Hnone in Hk. by destruct Hk.
  - destruct H as (k & r & _ & HC & Hr).
    destruct (Hrow k r HC) as [Hr' _]. by apply Hrows in Hr'.
  - split; [|by eauto]. intros Hblank.
    apply Hin, remark_is_Some in Hblank. specialize (H "").
    destruct (remark computed_dicts "") as [[s c]|];
      [|by destruct Hblank].
    destruct H as [[r Hr] _].
    destruct (parameters_cells !! "") as [r0|] eqn:H0; [|done].
    assert (Hs : is_Some (parameters_cells !! "")) by (by rewrite H0).
    apply Hdom in Hs as [_ Hs]. done.
Qed.

Lemma blank_requirement_breaks_report_witness :
  (is_Some (({["" := "7"]} : gmap string string) !! "") →
   generate_report ∅ (Buckets ∅ {["" := not_found "" "7"]} ∅ ∅)
   = inl (KeyError ""))
  ∧ (({["" := "7"]} : gmap string string) !! "" = None →
     ∃ x, generate_report ∅ (Buckets ∅ {["" := not_found "" "7"]} ∅ ∅)
          = inr x).
Proof.
  apply (blank_requirement_breaks_report
           [Row (CStr "Requirement") (CStr " shall be set to 7")
              [CNone; CNone; CNone; CNone; CNone]]
           [] ["Found 1 parameters"]
           ["Found 1 parameters"; "No results found for "]
           {["" := "7"]} ∅ ∅).
  - vm_compute. reflexivity.
  - vm_compute. reflexivity.
  - intros r Hr. apply list_elem_of_singleton in Hr as ->. simpl. lia.
Defined.

(** ** The text of the report *)

Lemma marks_text (s c : string) (l : list (string * container))
    (f f' : string) (C C' : gmap string row) :
  foldr (uncurry (mark s c)) (inr (f, C)) l = inr (f', C') →
  f' = foldr (λ p text, write_line text p.2) f l.
Proof.
  revert f' C'. induction l as [|[n x] l IH]; intros f' C'; simpl.
  - by intros [= <- <-].
  - destruct (foldr (uncurry (mark s c)) (inr (f, C)) l)
      as [e|[f1 C1]] eqn:Hl; [done|].
    rewrite mark_marked. destruct (C1 !! n) as [r|]; [|done].
    destruct (marked s c r); [|done].
    intros [= <- <-]. by rewrite (IH f1 C1).
Qed.

Lemma report_section_text (title s c : string) (d : bucket)
    (state : report_exn + report_state) (f' : string)
    (C' : gmap string row) :
  report_section title s c d state = inr (f', C') →
  ∃ f C, state = inr (f, C)
         ∧ f' = foldr (λ p text, write_line text p.2)
                  (write_report_header (write f title)) (map_to_list d).
Proof.
  destruct state as [e|[f C]]; simpl; [done|].
  rewrite map_fold_foldr. intros H%marks_text. eauto.
Qed.

(** The text [generate_report] writes to [report.md] is decided by the four
    dictionaries alone: two runs that return on the same dictionaries, with
    whatever rows, write the same text. *)
Theorem report_text_ignores_cells (excel_cells1 excel_cells2 : gmap string row)
    (computed_dicts : buckets) (report1 report2 : string)
    (saved1 saved2 : gmap string row) :
  generate_report excel_cells1 computed_dicts = inr (report1, saved1) →
  generate_report excel_cells2 computed_dicts = inr (report2, saved2) →
  report1 = report2.
Proof.
  unfold generate_report.
  intros (f3 & C3 & H3 & ->)%report_section_text
         (g3 & D3 & G3 & ->)%report_section_text.
  apply report_section_text in H3 as (f2 & C2 & H2 & ->).
  apply report_section_text in G3 as (g2 & D2 & G2 & ->).
  apply report_section_text in H2 as (f1 & C1 & H1 & ->).
  apply report_section_text in G2 as (g1 & D1 & G1 & ->).
  apply report_section_text in H1 as (f0 & C0 & [= <- <-] & ->).
  apply report_section_text in G1 as (g0 & D0 & [= <- <-] & ->).
  reflexivity.
Qed.

Lemma report_text_ignores_cells_witness :
  "# PARAMETERS WITH VALUES AS EXPECTED" +:+ nl
  +:+ report_table_header +:+ nl
  +:+ "P | 5 | a | f" +:+ nl
  +:+ "# PARAMETERS THAT WERE NOT FOUND IN CONFIG" +:+ nl
  +:+ report_table_header +:+ nl
  +:+ nl +:+ "# PARAMETERS WITH VALUES THAT COULD NOT BE COMPUTED"
  +:+ nl +:+ report_table_header +:+ nl
  +:+ nl +:+ "# PARAMETERS WITH WRONG VALUE" +:+ nl
  +:+ report_table_header +:+ nl
  = match generate_report
            {["P" := Row (CStr "Requirement") (CStr "P shall be set to 5")
                       [CNum 1; CNum 2; CNum 3; CNum 4; CNum 5]]}
            (Buckets {["P" := get_container_dict "P" "5" "a" "f"]} ∅ ∅ ∅)
    with
    | inr (report, _) => report
    | inl _ => ""
    end.
Proof.
  apply (report_text_ignores_cells
           {["P" := Row (CStr "Requirement") (CStr "P shall be set to 5")
                      [CNone; CNone; CNone; CNone; CNone]]}
           {["P" := Row (CStr "Requirement") (CStr "P shall be set to 5")
                      [CNum 1; CNum 2; CNum 3; CNum 4; CNum 5]]}
           (Buckets {["P" := get_container_dict "P" "5" "a" "f"]} ∅ ∅ ∅)
           _ _
           {["P" := Row (CStr "Requirement") (CStr "P shall be set to 5")
                      [CNone; CStr "Agreed"; CNone; CNone;
                       CStr "Found in config and value is matching."]]}
           {["P" := Row (CStr "Requirement") (CStr "P shall be set to 5")
                      [CNum 1; CStr "Agreed"; CNum 3; CNum 4;
                       CStr "Found in config and value is matching."]]}).
  - vm_compute. reflexivity.
  - vm_compute. reflexivity.
Defined.
